(** * StableSwap simulator (src/stable.py): shallow embedding and properties

    The simulator keeps one mutable object ([StableSwapSimulator]) whose
    methods read and assign its attributes and may raise.  Methods are
    embedded as computations of a state-and-exception monad over the
    record of attributes; as in Python, an exception does not undo the
    assignments made before it was raised.

    Numbers.  The source mixes binary floating point with 28-digit
    decimals, and both are embedded as they are.  A double is a
    [spec_float] of the Standard Library with the binary64 parameters
    (53 bits, round to nearest even, signed zeros, infinities, nan).  A
    [Decimal] is a sign, a coefficient and an exponent, or an infinity or a
    nan, and is rounded to the 28 digits of the context (half even) by
    every operation, with the traps of the default context.
    [Decimal(str(f))] reads the shortest numeral that [repr] prints for the
    double [f]; [float(d)] is the double nearest to [d].

    The same double behaves differently as a Python [float] and as a
    [numpy.float64], which is what [scipy.optimize.newton] passes to its
    objective: [/] by zero and an overflowing [**] raise for the first and
    give inf or nan for the second.  A number carries the mark of which of
    the two it is.  The C library's [pow] is taken to be correctly rounded.

    Output.  [print] calls are omitted, except that an operand expression
    that can raise is still evaluated. *)

From Stdlib Require Import ZArith List Bool String Lia SpecFloat.
Import ListNotations.
Open Scope Z_scope.

(** ** Exceptions and results *)

Inductive newton_failure : Type :=
| FailedToConverge (iterations : nat) (value : spec_float)
| ToleranceReached (gap : spec_float) (iterations : nat) (value : spec_float).

Inductive exn : Type :=
| ValueError (msg : string)
| ZeroDivisionError
| OverflowError
| IndexError
| RuntimeError (why : newton_failure)
| DivisionByZero
| InvalidOperation
| Overflow.

Inductive result (A : Type) : Type :=
| Ok (a : A)
| Raise (e : exn).
Arguments Ok {A} a.
Arguments Raise {A} e.

(** ** Binary64 *)

Definition binary64 : Type := spec_float.

Module b64.

Definition prec : Z := 53.
Definition emax : Z := 1024.

Definition add : binary64 -> binary64 -> binary64 := SFadd prec emax.
Definition sub : binary64 -> binary64 -> binary64 := SFsub prec emax.
Definition mul : binary64 -> binary64 -> binary64 := SFmul prec emax.
Definition div : binary64 -> binary64 -> binary64 := SFdiv prec emax.
Definition opp : binary64 -> binary64 := SFopp.
Definition abs : binary64 -> binary64 := SFabs.
Definition eqb : binary64 -> binary64 -> bool := SFeqb.
Definition ltb : binary64 -> binary64 -> bool := SFltb.
Definition leb : binary64 -> binary64 -> bool := SFleb.

Definition nan : binary64 := S754_nan.
Definition zero : binary64 := S754_zero false.

Definition is_finite (x : binary64) : bool :=
  match x with
  | S754_zero _ | S754_finite _ _ _ => true
  | S754_infinity _ | S754_nan => false
  end.

Definition is_zero (x : binary64) : bool :=
  match x with S754_zero _ => true | _ => false end.

Definition is_nan (x : binary64) : bool :=
  match x with S754_nan => true | _ => false end.

(** The same double, bit for bit. *)
Definition same (x y : binary64) : bool :=
  match x, y with
  | S754_zero s, S754_zero t => Bool.eqb s t
  | S754_infinity s, S754_infinity t => Bool.eqb s t
  | S754_nan, S754_nan => true
  | S754_finite s m e, S754_finite t n f =>
      Bool.eqb s t && Pos.eqb m n && Z.eqb e f
  | _, _ => false
  end.

(** The double nearest to [(-1)^s * n / d], ties to even, an infinity
    beyond the largest double: what reading a decimal numeral gives. *)
Definition of_ratio (s : bool) (n d : positive) : binary64 :=
  let '(mz, ez, lz) := SFdiv_core_binary prec emax (Zpos n) 0 (Zpos d) 0 in
  binary_round_aux prec emax s mz ez lz.

(** The double nearest to [(-1)^s * c * 10^e]. *)
Definition of_decimal (s : bool) (c : N) (e : Z) : binary64 :=
  match c with
  | N0 => S754_zero s
  | Npos c =>
      if 0 <=? e then of_ratio s (c * Z.to_pos (10 ^ e)) 1
      else of_ratio s c (Z.to_pos (10 ^ (- e)))
  end.

(** [x ** k] for a small positive integer [k], correctly rounded; an
    infinity when the power of a finite [x] is beyond the largest double. *)
Definition power (x : binary64) (k : positive) : binary64 :=
  let odd := match k with xO _ => false | _ => true end in
  match x with
  | S754_nan => S754_nan
  | S754_infinity s => S754_infinity (s && odd)
  | S754_zero s => S754_zero (s && odd)
  | S754_finite s m e =>
      binary_round prec emax (s && odd) (Pos.pow m k) (Z.pos k * e)
  end.

End b64.

(** ** Decimal numerals *)

(** [floor (log10 (n / d))] *)
Fixpoint ilog10_up (fuel : nat) (n d : Z) (k : Z) : Z :=
  match fuel with
  | O => k
  | S fuel =>
      (* is 10^(k+1) <= n/d ? *)
      let k1 := k + 1 in
      if (if 0 <=? k1 then 10 ^ k1 * d <=? n else d <=? n * 10 ^ (- k1))
      then ilog10_up fuel n d k1 else k
  end.

Fixpoint ilog10_down (fuel : nat) (n d : Z) (k : Z) : Z :=
  match fuel with
  | O => k
  | S fuel =>
      (* is 10^k <= n/d ? *)
      if (if 0 <=? k then 10 ^ k * d <=? n else d <=? n * 10 ^ (- k))
      then k else ilog10_down fuel n d (k - 1)
  end.

Definition ilog10 (n d : positive) : Z :=
  let est := ((Z.log2 (Zpos n) - Z.log2 (Zpos d) - 1) * 30103) / 100000 in
  ilog10_up 4 (Zpos n) (Zpos d) (ilog10_down 4 (Zpos n) (Zpos d) est).

Fixpoint ndigits_from (fuel : nat) (c : Z) : Z :=
  match fuel with
  | O => 1
  | S fuel => if c <? 10 then 1 else 1 + ndigits_from fuel (c / 10)
  end.

(** The number of decimal digits of [c] ([1] for [0]): the estimate from
    the binary size when it is right, the digits counted one by one
    otherwise. *)
Definition ndigits (c : N) : Z :=
  match c with
  | N0 => 1
  | Npos p =>
      let k := ilog10 p 1 in
      if (0 <=? k) && (10 ^ k <=? Zpos p) && (Zpos p <? 10 ^ (k + 1))
      then k + 1
      else ndigits_from (Pos.to_nat (Pos.size p)) (Zpos p)
  end.

Fixpoint strip_zeros (fuel : nat) (c : Z) (e : Z) : Z * Z :=
  match fuel with
  | O => (c, e)
  | S fuel => if (c mod 10 =? 0) && negb (c =? 0)
              then strip_zeros fuel (c / 10) (e + 1) else (c, e)
  end.

(** The shortest decimal numeral that reads back as the double
    [(-1)^s * m * 2^e], and among those of that length the nearest to it:
    its digits as an integer, and its exponent. *)
Fixpoint shortest_from (fuel : nat) (s : bool) (m : positive) (e : Z)
         (num den : Z) (k10 : Z) (n : Z) : Z * Z :=
  let x := k10 - n + 1 in
  let '(numx, denx) := if 0 <=? x then (num, den * 10 ^ x)
                       else (num * 10 ^ (- x), den) in
  let lo := numx / denx in
  let r := numx mod denx in
  let hi := lo + 1 in
  let reads c := b64.same (b64.of_decimal s (Z.to_N c) x) (S754_finite s m e) in
  let nearer_lo := match 2 * r ?= denx with
                   | Lt => true | Gt => false | Eq => Z.even lo end in
  match fuel with
  | O => (if nearer_lo then lo else hi, x)
  | S fuel =>
      match reads lo, reads hi with
      | true, true => (if nearer_lo then lo else hi, x)
      | true, false => (lo, x)
      | false, true => (hi, x)
      | false, false => shortest_from fuel s m e num den k10 (n + 1)
      end
  end.

Definition shortest (s : bool) (m : positive) (e : Z) : Z * Z :=
  let '(num, den) := if 0 <=? e then (Zpos m * 2 ^ e, 1)
                     else (Zpos m, 2 ^ (- e)) in
  let k10 := ilog10 (Z.to_pos num) (Z.to_pos den) in
  let '(c, x) := shortest_from 16 s m e num den k10 1 in
  strip_zeros 17 c x.

Inductive decimal : Type :=
| DFin (sign : bool) (coeff : N) (exp : Z)
| DInf (sign : bool)
| DNaN.

Module dec.

Definition prec : Z := 28.
Definition Emax : Z := 999999.
Definition Emin : Z := -999999.
Definition Etiny : Z := Emin - prec + 1.
Definition Etop : Z := Emax - prec + 1.

(** [c / 10^k] rounded to the nearest integer, ties to even ([0 < k]). *)
Definition round_half_even (c : Z) (k : Z) : Z :=
  let p := 10 ^ k in
  let q := c / p in
  let r := c mod p in
  match 2 * r ?= p with
  | Lt => q
  | Gt => q + 1
  | Eq => if Z.even q then q else q + 1
  end.

(** Rounding of a result to the context: at most [prec] digits, within the
    exponent range. *)
Definition _fix (s : bool) (c : N) (e : Z) : result decimal :=
  match c with
  | N0 => Ok (DFin s 0 (Z.min (Z.max e Etiny) Emax))
  | Npos _ =>
      let exp_min := ndigits c + e - prec in
      if Etop <? exp_min then Raise Overflow
      else
        let exp_min := Z.max exp_min Etiny in
        if e <? exp_min then
          let c' := round_half_even (Z.of_N c) (exp_min - e) in
          let '(c', exp_min) :=
            if prec <? ndigits (Z.to_N c') then (c' / 10, exp_min + 1)
            else (c', exp_min) in
          if Etop <? exp_min then Raise Overflow
          else Ok (DFin s (Z.to_N c') exp_min)
        else Ok (DFin s c e)
  end.

(** The integer [(-1)^s * c * 10^(e - k)], for [k <= e]. *)
Definition scaled (s : bool) (c : N) (e k : Z) : Z :=
  let v := Z.of_N c * 10 ^ (e - k) in
  if s then - v else v.

Definition neg (a : decimal) : decimal :=
  match a with
  | DFin s c e => DFin (negb s) c e
  | DInf s => DInf (negb s)
  | DNaN => DNaN
  end.

Definition add (a b : decimal) : result decimal :=
  match a, b with
  | DNaN, _ | _, DNaN => Ok DNaN
  | DInf s, DInf t => if Bool.eqb s t then Ok (DInf s) else Raise InvalidOperation
  | DInf s, _ => Ok (DInf s)
  | _, DInf t => Ok (DInf t)
  | DFin s c e, DFin t d f =>
      let exp := Z.min e f in
      match c, d with
      | N0, N0 => _fix (s && t) 0 exp
      | N0, _ =>
          let exp := Z.max exp (f - prec - 1) in
          _fix t (Z.to_N (Z.of_N d * 10 ^ (f - exp))) exp
      | _, N0 =>
          let exp := Z.max exp (e - prec - 1) in
          _fix s (Z.to_N (Z.of_N c * 10 ^ (e - exp))) exp
      | _, _ =>
          let z := scaled s c e exp + scaled t d f exp in
          if z =? 0 then _fix (s && t) 0 exp
          else _fix (z <? 0) (Z.abs_N z) exp
      end
  end.

Definition sub (a b : decimal) : result decimal := add a (neg b).

(** An exact quotient is brought as close to the ideal exponent as its
    trailing zeros allow. *)
Fixpoint div_trim (fuel : nat) (ideal q exp : Z) : Z * Z :=
  match fuel with
  | O => (q, exp)
  | S fuel => if (exp <? ideal) && (q mod 10 =? 0)
              then div_trim fuel ideal (q / 10) (exp + 1) else (q, exp)
  end.

Definition div (a b : decimal) : result decimal :=
  match a, b with
  | DNaN, _ | _, DNaN => Ok DNaN
  | DInf s, DInf t => Raise InvalidOperation
  | DInf s, DFin t _ _ => Ok (DInf (xorb s t))
  | DFin s _ _, DInf t => Ok (DFin (xorb s t) 0 Etiny)
  | DFin s c e, DFin t d f =>
      let sign := xorb s t in
      match d with
      | N0 => match c with
              | N0 => Raise InvalidOperation
              | _ => Raise DivisionByZero
              end
      | _ =>
          match c with
          | N0 => _fix sign 0 (e - f)
          | _ =>
              let shift := ndigits d - ndigits c + prec + 1 in
              let exp := e - f - shift in
              let '(q, r) :=
                if 0 <=? shift
                then Z.div_eucl (Z.of_N c * 10 ^ shift) (Z.of_N d)
                else Z.div_eucl (Z.of_N c) (Z.of_N d * 10 ^ (- shift)) in
              if negb (r =? 0) then
                _fix sign (Z.to_N (if q mod 5 =? 0 then q + 1 else q)) exp
              else
                let ideal := e - f in
                let '(q, exp) := div_trim (Z.to_nat (ideal - exp)) ideal q exp in
                _fix sign (Z.to_N q) exp
          end
      end
  end.

(** [a <= b] and [a < b]; a nan compares false. *)
Definition leb (a b : decimal) : bool :=
  match a, b with
  | DNaN, _ | _, DNaN => false
  | DInf s, DInf t => s || negb t
  | DInf s, DFin _ _ _ => s
  | DFin _ _ _, DInf t => negb t
  | DFin s c e, DFin t d f =>
      let k := Z.min e f in scaled s c e k <=? scaled t d f k
  end.

Definition ltb (a b : decimal) : bool :=
  match a, b with
  | DNaN, _ | _, DNaN => false
  | DInf s, DInf t => s && negb t
  | DInf s, DFin _ _ _ => s
  | DFin _ _ _, DInf t => negb t
  | DFin s c e, DFin t d f =>
      let k := Z.min e f in scaled s c e k <? scaled t d f k
  end.

(** [0 < a] *)
Definition positive (a : decimal) : bool :=
  match a with
  | DFin false (Npos _) _ => true
  | DInf false => true
  | _ => false
  end.

(** [d == 0] *)
Definition eq_zero (a : decimal) : bool :=
  match a with
  | DFin _ N0 _ => true
  | _ => false
  end.

Definition zero : decimal := DFin false 0 0.

(** [abs(a)], rounded to the context as every result is. *)
Definition abs (a : decimal) : result decimal :=
  match a with
  | DFin _ c e => _fix false c e
  | DInf _ => Ok (DInf false)
  | DNaN => Ok DNaN
  end.

(** [Decimal(str(z))] for an int [z] *)
Definition of_int (z : Z) : decimal := DFin (z <? 0) (Z.abs_N z) 0.

End dec.

(** [float(d)] for a Decimal [d] *)
Definition float (d : decimal) : binary64 :=
  match d with
  | DFin s c e => b64.of_decimal s c e
  | DInf s => S754_infinity s
  | DNaN => S754_nan
  end.

(** [Decimal(str(f))] for a double [f] *)
Definition Decimal (f : binary64) : decimal :=
  match f with
  | S754_nan => DNaN
  | S754_infinity s => DInf s
  | S754_zero s => DFin s 0 (-1)
  | S754_finite s m e =>
      if valid_binary b64.prec b64.emax f then
        let '(c, x) := shortest s m e in
        let n := ndigits (Z.to_N c) in
        let decpt := x + n in
        if (decpt <=? -4) || (16 <? decpt) || (decpt <? n)
        then DFin s (Z.to_N c) x
        else DFin s (Z.to_N (c * 10 ^ (x + 1))) (-1)
      else DNaN
  end.

(** ** Python floats and numpy float64 *)

Inductive number : Type :=
| Py (v : binary64)
| Np (v : binary64).

Definition val (a : number) : binary64 :=
  match a with Py v | Np v => v end.

Definition is_np (a : number) : bool :=
  match a with Np _ => true | Py _ => false end.

(** The result of an operation is a [numpy.float64] as soon as one operand
    is. *)
Definition mark (np : bool) (v : binary64) : number :=
  if np then Np v else Py v.

Definition fadd (a b : number) : number :=
  mark (is_np a || is_np b) (b64.add (val a) (val b)).
Definition fsub (a b : number) : number :=
  mark (is_np a || is_np b) (b64.sub (val a) (val b)).
Definition fmul (a b : number) : number :=
  mark (is_np a || is_np b) (b64.mul (val a) (val b)).
Definition fneg (a : number) : number :=
  mark (is_np a) (b64.opp (val a)).

(** [a / b]: a Python float raises on a zero divisor, whatever the
    dividend; a [numpy.float64] gives inf or nan (with a warning). *)
Definition truediv (a b : number) : result number :=
  if is_np a || is_np b then Ok (Np (b64.div (val a) (val b)))
  else if b64.is_zero (val b) then Raise ZeroDivisionError
  else Ok (Py (b64.div (val a) (val b))).

(** [a ** k] for a literal exponent [k]: a Python float raises when the
    power of a finite number is not; a [numpy.float64] gives inf. *)
Definition pow (a : number) (k : positive) : result number :=
  match a with
  | Np v => Ok (Np (b64.power v k))
  | Py v =>
      let r := b64.power v k in
      if b64.is_finite v && negb (b64.is_finite r) then Raise OverflowError
      else Ok (Py r)
  end.

Declare Scope num_scope.
Delimit Scope num_scope with num.
Bind Scope num_scope with number.
Infix "+" := fadd : num_scope.
Infix "-" := fsub : num_scope.
Infix "*" := fmul : num_scope.
Notation "- a" := (fneg a) : num_scope.

(** The literals of the source. *)
Definition lit_1 : binary64 := Eval vm_compute in b64.of_decimal false 1 0.
Definition lit_2 : binary64 := Eval vm_compute in b64.of_decimal false 2 0.
Definition lit_4 : binary64 := Eval vm_compute in b64.of_decimal false 4 0.
Definition lit_1e_4 : binary64 := Eval vm_compute in b64.of_decimal false 1 (-4).
Definition lit_1e_10 : binary64 := Eval vm_compute in b64.of_decimal false 1 (-10).
Definition lit_1e10 : binary64 := Eval vm_compute in b64.of_decimal false 1 10.

(** [tol=1e-10] *)
Definition tol_1e_10 : binary64 := lit_1e_10.

(** [1e10], the value [invariant_error] returns when the curve raises. *)
Definition penalty : number := Py lit_1e10.

(** ** Python lists indexed by an int *)

Definition norm_index (len : nat) (i : Z) : option nat :=
  let l := Z.of_nat len in
  let j := if i <? 0 then l + i else i in
  if (0 <=? j) && (j <? l) then Some (Z.to_nat j) else None.

Definition getitem {A} (l : list A) (i : Z) : result A :=
  match norm_index (List.length l) i with
  | Some j => match nth_error l j with Some a => Ok a | None => Raise IndexError end
  | None => Raise IndexError
  end.

Fixpoint replace_nth {A} (l : list A) (j : nat) (a : A) : list A :=
  match l, j with
  | [], _ => []
  | _ :: t, O => a :: t
  | h :: t, S k => h :: replace_nth t k a
  end.

Definition setitem {A} (l : list A) (i : Z) (a : A) : result (list A) :=
  match norm_index (List.length l) i with
  | Some j => Ok (replace_nth l j a)
  | None => Raise IndexError
  end.

(** [sum(l)] of a list of decimals: [0 + l[0] + l[1] + ...], where
    [0 + l[0]] is computed by [l[0].__radd__(0)]. *)
Definition sum (l : list decimal) : result decimal :=
  match l with
  | [] => Ok dec.zero
  | b :: l =>
      fold_left (fun acc b => match acc with
                              | Ok a => dec.add a b
                              | Raise e => Raise e
                              end) l (dec.add b dec.zero)
  end.

(** ** The simulator object *)

Record pool : Type := mkPool {
  balances : list decimal;
  amp : decimal;
  n : nat;
  swap_history : list (string * binary64 * binary64);
  price_history : list (binary64 * binary64 * binary64);
  invariant : decimal;
  spot_price : binary64
}.

(** ** State and exception monad *)

Definition M (A : Type) : Type := pool -> result A * pool.

Definition ret {A} (a : A) : M A := fun s => (Ok a, s).

Definition bind {A B} (m : M A) (k : A -> M B) : M B :=
  fun s => match m s with
           | (Ok a, s') => k a s'
           | (Raise e, s') => (Raise e, s')
           end.

Definition raise {A} (e : exn) : M A := fun s => (Raise e, s).

Definition lift {A} (r : result A) : M A := fun s => (r, s).

Definition gets {A} (f : pool -> A) : M A := fun s => (Ok (f s), s).

Definition modify (f : pool -> pool) : M unit := fun s => (Ok tt, f s).

(** [try: m  except: h] with a bare [except]. *)
Definition try_except {A} (m : M A) (h : M A) : M A :=
  fun s => match m s with
           | (Ok a, s') => (Ok a, s')
           | (Raise _, s') => h s'
           end.

Notation "x <- m ;; k" := (bind m (fun x => k))
  (at level 61, m at next level, right associativity).
Notation "m ;;; k" := (bind m (fun _ => k))
  (at level 61, right associativity).

Definition set_balances (b : list decimal) : M unit :=
  modify (fun s => mkPool b (amp s) (n s) (swap_history s) (price_history s)
                          (invariant s) (spot_price s)).
Definition set_amp (a : decimal) : M unit :=
  modify (fun s => mkPool (balances s) a (n s) (swap_history s) (price_history s)
                          (invariant s) (spot_price s)).
Definition set_n (k : nat) : M unit :=
  modify (fun s => mkPool (balances s) (amp s) k (swap_history s) (price_history s)
                          (invariant s) (spot_price s)).
Definition set_swap_history (h : list (string * binary64 * binary64)) : M unit :=
  modify (fun s => mkPool (balances s) (amp s) (n s) h (price_history s)
                          (invariant s) (spot_price s)).
Definition set_price_history (h : list (binary64 * binary64 * binary64)) : M unit :=
  modify (fun s => mkPool (balances s) (amp s) (n s) (swap_history s) h
                          (invariant s) (spot_price s)).
Definition set_invariant (d : decimal) : M unit :=
  modify (fun s => mkPool (balances s) (amp s) (n s) (swap_history s) (price_history s)
                          d (spot_price s)).
Definition set_spot_price (p : binary64) : M unit :=
  modify (fun s => mkPool (balances s) (amp s) (n s) (swap_history s) (price_history s)
                          (invariant s) p).

(** ** scipy.optimize *)

Module optimize.

(** [np.isclose(a, b, rtol=rtol, atol=atol)]: two finite numbers are
    compared within the tolerance, any others for equality. *)
Definition isclose (a b rtol atol : binary64) : bool :=
  (b64.is_finite a && b64.is_finite b
   && b64.leb (b64.abs (b64.sub a b))
              (b64.add atol (b64.mul rtol (b64.abs b))))
  || b64.eqb a b.

(** What a converged call reports: the root, the number of evaluations of
    the objective and the number of iterations. *)
Record RootResults : Type := mkRootResults {
  root : number;
  function_calls : nat;
  iterations : nat
}.

(** [(-qa / qb * pb + pa) / (1 - qa / qb)] *)
Definition secant_point (qa qb pa pb : number) : M number :=
  r <- lift (truediv (- qa) qb) ;;
  t <- lift (truediv qa qb) ;;
  lift (truediv (r * pb + pa) (Py lit_1 - t)).

(** Modelled from the spec: [scipy.optimize.newton] is an external library
    routine and is not among the sources.  The spec describes the solver
    as a derivative-free two-point (secant-style) iteration that estimates
    the slope from the two most recent trial values, stops when the step is
    within the tolerance, and fails when the iteration cap is reached
    without meeting it.  The loop below is that iteration as the library
    performs it when no derivative is passed: [remaining] counts the
    iterations still allowed, [itr] those already made and [funcalls] the
    evaluations of [func] so far. *)
Fixpoint secant (func : number -> M number) (tol : binary64)
         (remaining itr funcalls : nat) (p0 q0 p1 q1 : number)
  : M RootResults :=
  match remaining with
  | O => raise (RuntimeError (FailedToConverge itr (val p1)))
  | S k =>
    if b64.eqb (val q1) (val q0) then
      if negb (b64.eqb (val p1) (val p0))
      then raise (RuntimeError (ToleranceReached (val (p1 - p0)) (S itr) (val p1)))
      else p <- lift (truediv (p1 + p0) (Py lit_2)) ;;
           ret (mkRootResults p funcalls (S itr))
    else
      p <- (if b64.ltb (b64.abs (val q0)) (b64.abs (val q1))
            then secant_point q0 q1 p0 p1
            else secant_point q1 q0 p1 p0) ;;
      if isclose (val p) (val p1) b64.zero tol
      then ret (mkRootResults p funcalls (S itr))
      else q <- func p ;; secant func tol k (S itr) (S funcalls) p1 q1 p q
  end.

(** Modelled from the spec: the entry point of the same external routine,
    called as [newton(func, x0, tol=tol, maxiter=maxiter)].  The guess is
    made a [numpy.float64], and the second starting point is the perturbed
    guess the library chooses. *)
Definition newton_full (func : number -> M number) (x0 : number)
           (tol : binary64) (maxiter : nat) : M RootResults :=
  if b64.leb tol b64.zero then raise (ValueError "tol too small") else
  if (maxiter <? 1)%nat then raise (ValueError "maxiter must be greater than 0") else
  let x0 := Np (b64.mul (val x0) lit_1) in
  let p0 := x0 in
  let eps := Py lit_1e_4 in
  let p1 := (x0 * (Py lit_1 + eps))%num in
  let p1 := (p1 + (if b64.leb b64.zero (val p1) then eps else - eps))%num in
  q0 <- func p0 ;;
  q1 <- func p1 ;;
  if b64.ltb (b64.abs (val q1)) (b64.abs (val q0))
  then secant func tol maxiter 0 2 p1 q1 p0 q0
  else secant func tol maxiter 0 2 p0 q0 p1 q1.

Definition newton (func : number -> M number) (x0 : number)
           (tol : binary64) (maxiter : nat) : M number :=
  r <- newton_full func x0 tol maxiter ;; ret (root r).

End optimize.

(** ** StableSwapSimulator *)

Definition _invariant_function (d : number) (bal : list decimal) : M number :=
  if negb (List.length bal =? 2)%nat
  then raise (ValueError "This formula only works for 2 tokens")
  else
    b0 <- lift (getitem bal 0) ;;
    b1 <- lift (getitem bal 1) ;;
    let x := Py (float b0) in
    let y := Py (float b1) in
    a <- gets amp ;;
    let A := Py (float a) in
    let left_side := (Py lit_4 * A * (x + y) + d)%num in
    d3 <- lift (pow d 3) ;;
    t <- lift (truediv d3 (Py lit_4 * x * y)%num) ;;
    let right_side := (Py lit_4 * A * d + t)%num in
    ret (left_side - right_side)%num.

(** The objective [lambda d: self._invariant_function(d, self.balances)]. *)
Definition invariant_objective (d : number) : M number :=
  b <- gets balances ;; _invariant_function d b.

Definition _compute_invariant : M decimal :=
  bal <- gets balances ;;
  sum_x <- lift (sum bal) ;;
  if dec.eq_zero sum_x then ret dec.zero
  else
    r <- optimize.newton invariant_objective (Py (float sum_x)) tol_1e_10 100 ;;
    ret (Decimal (val r)).

Definition update_spot_price : M unit :=
  bal <- gets balances ;;
  x <- lift (getitem bal 0) ;;
  y <- lift (getitem bal 1) ;;
  let x_float := Py (float x) in
  let y_float := Py (float y) in
  inv <- gets invariant ;;
  let d := Py (float inv) in
  a <- gets amp ;;
  let A := Py (float a) in
  d3 <- lift (pow d 3) ;;
  x2 <- lift (pow x_float 2) ;;
  t <- lift (truediv d3 (Py lit_4 * x2 * y_float)%num) ;;
  let df_dx := (Py lit_4 * A - t)%num in
  d3 <- lift (pow d 3) ;;
  y2 <- lift (pow y_float 2) ;;
  t <- lift (truediv d3 (Py lit_4 * x_float * y2)%num) ;;
  let df_dy := (Py lit_4 * A - t)%num in
  p <- lift (truediv df_dy df_dx) ;;
  set_spot_price (val p) ;;;
  h <- gets price_history ;;
  sp <- gets spot_price ;;
  set_price_history (h ++ [(float x, float y, sp)]).

(** The closure [invariant_error] of [solve_for_balance].  The two entries
    of the local list are the int [0] until they are assigned. *)
Definition invariant_error (known_balance : decimal) (balance_index : Z)
           (target_invariant : decimal) (balance : number) : M number :=
  let bal := [dec.zero; dec.zero] in
  bal <- lift (setitem bal balance_index known_balance) ;;
  bal <- lift (setitem bal (1 - balance_index) (Decimal (val balance))) ;;
  try_except (_invariant_function (Py (float target_invariant)) bal)
             (ret penalty).

Definition solve_for_balance (known_balance : decimal) (balance_index : Z)
           (target_invariant : decimal) : M decimal :=
  bal <- gets balances ;;
  ob <- lift (getitem bal (1 - balance_index)) ;;
  let other_balance := Py (float ob) in
  r <- optimize.newton
         (invariant_error known_balance balance_index target_invariant)
         other_balance tol_1e_10 100 ;;
  ret (Decimal (val r)).

Definition get_dy_given_dx (dx : decimal) : M decimal :=
  bal <- gets balances ;;
  x <- lift (getitem bal 0) ;;
  y <- lift (getitem bal 1) ;;
  x_new <- lift (dec.add x dx) ;;
  inv <- gets invariant ;;
  y_new <- solve_for_balance x_new 0 inv ;;
  lift (dec.sub y y_new).

Definition get_dx_given_dy (dy : decimal) : M decimal :=
  bal <- gets balances ;;
  x <- lift (getitem bal 0) ;;
  y <- lift (getitem bal 1) ;;
  y_new <- lift (dec.add y dy) ;;
  inv <- gets invariant ;;
  x_new <- solve_for_balance y_new 1 inv ;;
  lift (dec.sub x x_new).

(** [self.balances[i] += v] *)
Definition iadd_balance (i : Z) (v : decimal) : M unit :=
  bal <- gets balances ;;
  b <- lift (getitem bal i) ;;
  b' <- lift (dec.add b v) ;;
  bal' <- lift (setitem bal i b') ;;
  set_balances bal'.

(** [self.balances[i] -= v] *)
Definition isub_balance (i : Z) (v : decimal) : M unit :=
  bal <- gets balances ;;
  b <- lift (getitem bal i) ;;
  b' <- lift (dec.sub b v) ;;
  bal' <- lift (setitem bal i b') ;;
  set_balances bal'.

Definition swap_x_for_y (dx : binary64) : M binary64 :=
  let dx_decimal := Decimal dx in
  dy_decimal <- get_dy_given_dx dx_decimal ;;
  iadd_balance 0 dx_decimal ;;;
  isub_balance 1 dy_decimal ;;;
  new_invariant <- _compute_invariant ;;
  inv <- gets invariant ;;
  diff <- lift (dec.sub new_invariant inv) ;;
  invariant_diff <- lift (dec.abs diff) ;;
  set_invariant new_invariant ;;;
  update_spot_price ;;;
  h <- gets swap_history ;;
  set_swap_history (h ++ [("X->Y"%string, dx, float dy_decimal)]) ;;;
  _ <- lift (dec.div dy_decimal dx_decimal) ;;
  ret (float dy_decimal).

Definition swap_y_for_x (dy : binary64) : M binary64 :=
  let dy_decimal := Decimal dy in
  dx_decimal <- get_dx_given_dy dy_decimal ;;
  iadd_balance 1 dy_decimal ;;;
  isub_balance 0 dx_decimal ;;;
  new_invariant <- _compute_invariant ;;
  inv <- gets invariant ;;
  diff <- lift (dec.sub new_invariant inv) ;;
  invariant_diff <- lift (dec.abs diff) ;;
  set_invariant new_invariant ;;;
  update_spot_price ;;;
  h <- gets swap_history ;;
  set_swap_history (h ++ [("Y->X"%string, dy, float dx_decimal)]) ;;;
  _ <- lift (dec.div dy_decimal dx_decimal) ;;
  ret (float dx_decimal).

(** The object before [__init__] has assigned anything; [invariant] and
    [spot_price] do not exist yet in Python and are never read before
    [__init__] assigns them. *)
Definition blank : pool := mkPool [] dec.zero 0 [] [] dec.zero b64.zero.

Definition __init__ (initial_balances : list binary64)
           (amplification_parameter : Z) : M unit :=
  set_balances (map Decimal initial_balances) ;;;
  set_amp (dec.of_int amplification_parameter) ;;;
  set_n (List.length initial_balances) ;;;
  set_swap_history [] ;;;
  set_price_history [] ;;;
  k <- gets n ;;
  if negb (k =? 2)%nat
  then raise (ValueError "This simulator only supports 2 tokens for now")
  else
    d <- _compute_invariant ;;
    set_invariant d ;;;
    update_spot_price.

(** [StableSwapSimulator(initial_balances, amplification_parameter)]: the
    object exists for the caller only when [__init__] returns. *)
Definition StableSwapSimulator (initial_balances : list binary64)
           (amplification_parameter : Z) : result pool :=
  match __init__ initial_balances amplification_parameter blank with
  | (Ok _, s) => Ok s
  | (Raise e, _) => Raise e
  end.

(** ** Rolling TWAP (src/twap.py) *)

Module twap.
Section Rolling.

(** [np.mean], an external library routine, on the doubles of a window. *)
Variable mean : list binary64 -> binary64.

Definition arithmetic_twap (prices : list binary64) : binary64 := mean prices.

(** The slice [prices[i:i+window_size]]. *)
Definition window (prices : list binary64) (i window_size : nat)
  : list binary64 :=
  firstn window_size (skipn i prices).

(** [[arithmetic_twap(prices[i:i+window_size])
      for i in range(len(prices) - window_size + 1)]] *)
Definition rolling_arithmetic_twap (window_size : nat) (prices : list binary64)
  : list binary64 :=
  map (fun i => arithmetic_twap (window prices i window_size))
      (seq 0 (List.length prices + 1 - window_size)).

(** [time = np.arange(window_size - 1, len(prices))] *)
Definition time (window_size : nat) (prices : list binary64) : list Z :=
  let start := Z.of_nat window_size - 1 in
  map (fun k => start + Z.of_nat k)
      (seq 0 (Z.to_nat (Z.of_nat (List.length prices) - start))).

End Rolling.
End twap.

(** * Properties *)

(** ** Frame conditions of monadic computations *)

(** [preserves f m]: running [m] never changes the attribute(s) [f], whether
    [m] returns or raises. *)
Definition preserves {A B} (f : pool -> B) (m : M A) : Prop :=
  forall s, f (snd (m s)) = f s.

(** [read_only m]: running [m] leaves the whole object as it was. *)
Definition read_only {A} (m : M A) : Prop := preserves (fun s => s) m.

Lemma read_only_preserves {A B} (f : pool -> B) (m : M A) :
  read_only m -> preserves f m.
Proof. intros H s. unfold read_only, preserves in H. now rewrite H. Qed.

Section Frame.
Context {B : Type} (f : pool -> B).

Lemma preserves_ret {A} (a : A) : preserves f (ret a).
Proof. intros s. reflexivity. Qed.

Lemma preserves_raise {A} (e : exn) : preserves f (@raise A e).
Proof. intros s. reflexivity. Qed.

Lemma preserves_lift {A} (r : result A) : preserves f (lift r).
Proof. intros s. reflexivity. Qed.

Lemma preserves_gets {A} (g : pool -> A) : preserves f (gets g).
Proof. intros s. reflexivity. Qed.

Lemma preserves_bind {A C} (m : M A) (k : A -> M C) :
  preserves f m -> (forall a, preserves f (k a)) -> preserves f (bind m k).
Proof.
  intros Hm Hk s. unfold bind.
  specialize (Hm s). destruct (m s) as [[a|e] s1]; cbn in *.
  - now rewrite Hk.
  - exact Hm.
Qed.

Lemma preserves_try_except {A} (m h : M A) :
  preserves f m -> preserves f h -> preserves f (try_except m h).
Proof.
  intros Hm Hh s. unfold try_except.
  specialize (Hm s). destruct (m s) as [[a|e] s1]; cbn in *.
  - exact Hm.
  - now rewrite Hh.
Qed.

Lemma preserves_if {A} (b : bool) (m1 m2 : M A) :
  preserves f m1 -> preserves f m2 -> preserves f (if b then m1 else m2).
Proof. now destruct b. Qed.

Lemma preserves_secant_point (qa qb pa pb : number) :
  preserves f (optimize.secant_point qa qb pa pb).
Proof.
  unfold optimize.secant_point.
  repeat (apply preserves_bind; [apply preserves_lift | intro]).
  apply preserves_lift.
Qed.

Lemma preserves_secant (func : number -> M number) (tol : binary64) :
  (forall p, preserves f (func p)) ->
  forall remaining itr funcalls p0 q0 p1 q1,
    preserves f (optimize.secant func tol remaining itr funcalls p0 q0 p1 q1).
Proof.
  intros Hfunc. induction remaining as [|k IH]; intros; cbn [optimize.secant].
  - apply preserves_raise.
  - apply preserves_if.
    + apply preserves_if; [apply preserves_raise|].
      apply preserves_bind; [apply preserves_lift | intro; apply preserves_ret].
    + apply preserves_bind.
      * apply preserves_if; apply preserves_secant_point.
      * intros p. apply preserves_if; [apply preserves_ret|].
        apply preserves_bind; [apply Hfunc | intros q; apply IH].
Qed.

Lemma preserves_newton_full (func : number -> M number) (x0 : number)
      (tol : binary64) (maxiter : nat) :
  (forall p, preserves f (func p)) ->
  preserves f (optimize.newton_full func x0 tol maxiter).
Proof.
  intros Hfunc. unfold optimize.newton_full.
  repeat apply preserves_if; try apply preserves_raise.
  apply preserves_bind; [apply Hfunc | intros q0].
  apply preserves_bind; [apply Hfunc | intros q1].
  apply preserves_if; now apply preserves_secant.
Qed.

Lemma preserves_newton (func : number -> M number) (x0 : number)
      (tol : binary64) (maxiter : nat) :
  (forall p, preserves f (func p)) ->
  preserves f (optimize.newton func x0 tol maxiter).
Proof.
  intros Hfunc. unfold optimize.newton.
  apply preserves_bind; [now apply preserves_newton_full | intros r].
  apply preserves_ret.
Qed.
End Frame.

Create HintDb frame discriminated.
#[export] Hint Resolve preserves_ret preserves_raise preserves_lift
  preserves_gets preserves_if preserves_try_except : frame.
#[export] Hint Extern 2 (preserves _ (bind _ _)) =>
  (apply preserves_bind; [ | intro ]) : frame.
#[export] Hint Extern 1 (read_only _) => unfold read_only : frame.

Lemma read_only_invariant_function (d : number) (bal : list decimal) :
  read_only (_invariant_function d bal).
Proof. unfold _invariant_function. auto 20 with frame. Qed.

Lemma read_only_invariant_objective (d : number) :
  read_only (invariant_objective d).
Proof.
  unfold invariant_objective. unfold read_only.
  apply preserves_bind; [auto with frame | intros b].
  apply read_only_invariant_function.
Qed.

Lemma read_only_compute_invariant : read_only _compute_invariant.
Proof.
  unfold _compute_invariant, read_only.
  apply preserves_bind; [auto with frame | intros bal].
  apply preserves_bind; [auto with frame | intros sum_x].
  apply preserves_if; [auto with frame|].
  apply preserves_bind; [|auto with frame].
  apply preserves_newton. intros p. apply read_only_invariant_objective.
Qed.

Lemma read_only_invariant_error known idx target b :
  read_only (invariant_error known idx target b).
Proof.
  unfold invariant_error, read_only.
  apply preserves_bind; [auto with frame | intros b1].
  apply preserves_bind; [auto with frame | intros b2].
  apply preserves_try_except; [|auto with frame].
  apply read_only_invariant_function.
Qed.

Lemma read_only_solve_for_balance known idx target :
  read_only (solve_for_balance known idx target).
Proof.
  unfold solve_for_balance, read_only.
  apply preserves_bind; [auto with frame | intros bal].
  apply preserves_bind; [auto with frame | intros ob].
  apply preserves_bind; [|auto with frame].
  apply preserves_newton. intros p. apply read_only_invariant_error.
Qed.

Lemma read_only_get_dy_given_dx (dx : decimal) : read_only (get_dy_given_dx dx).
Proof.
  unfold get_dy_given_dx, read_only.
  do 5 (apply preserves_bind; [auto with frame | intro]).
  apply preserves_bind; [apply read_only_solve_for_balance | auto with frame].
Qed.

Lemma read_only_get_dx_given_dy (dy : decimal) : read_only (get_dx_given_dy dy).
Proof.
  unfold get_dx_given_dy, read_only.
  do 5 (apply preserves_bind; [auto with frame | intro]).
  apply preserves_bind; [apply read_only_solve_for_balance | auto with frame].
Qed.

(** A read-only computation is determined by its result. *)
Lemma read_only_run {A} (m : M A) (s : pool) :
  read_only m -> m s = (fst (m s), s).
Proof.
  intros H. specialize (H s). cbn in H.
  destruct (m s) as [r s1]. cbn in *. now subst.
Qed.

Lemma bind_ok {A B} (m : M A) (k : A -> M B) (s s' : pool) (a : A) :
  m s = (Ok a, s') -> bind m k s = k a s'.
Proof. intros H. unfold bind. now rewrite H. Qed.

Lemma bind_raise {A B} (m : M A) (k : A -> M B) (s s' : pool) (e : exn) :
  m s = (Raise e, s') -> bind m k s = (Raise e, s').
Proof. intros H. unfold bind. now rewrite H. Qed.

Lemma bind_returns {A B} (m : M A) (k : A -> M B) (s s' : pool) (b : B) :
  bind m k s = (Ok b, s') ->
  exists a s1, m s = (Ok a, s1) /\ k a s1 = (Ok b, s').
Proof.
  unfold bind. destruct (m s) as [[a|e] s1]; [|discriminate].
  intros H. now exists a, s1.
Qed.

Lemma getitem_pair_0 {A} (a b : A) : getitem [a; b] 0 = Ok a.
Proof. reflexivity. Qed.

Lemma getitem_pair_1 {A} (a b : A) : getitem [a; b] 1 = Ok b.
Proof. reflexivity. Qed.

Lemma setitem_pair_0 {A} (a b c : A) : setitem [a; b] 0 c = Ok [c; b].
Proof. reflexivity. Qed.

Lemma setitem_pair_1 {A} (a b c : A) : setitem [a; b] 1 c = Ok [a; c].
Proof. reflexivity. Qed.

(** ** Quotes do not change the pool *)

(** C9: quoting a swap in either direction leaves the whole object (balances,
    cached invariant, cached spot price and both histories) as it was, whether
    the quote returns or raises. *)
Theorem quotes_do_not_mutate (amount : decimal) (s : pool) :
  snd (get_dy_given_dx amount s) = s /\ snd (get_dx_given_dy amount s) = s.
Proof.
  split.
  - apply (read_only_get_dy_given_dx amount s).
  - apply (read_only_get_dx_given_dy amount s).
Qed.

(** ** Swaps *)

(** The object with its list of balances replaced. *)
Definition with_balances (s : pool) (b : list decimal) : pool :=
  mkPool b (amp s) (n s) (swap_history s) (price_history s)
         (invariant s) (spot_price s).

(** What a swap does once both balances are updated: recompute the
    invariant, take its distance to the cached one, store it, update the
    price, record the swap and return the amount out.  [num / den] is the
    quotient printed as the price. *)
Definition settle (label : string) (amount_in : binary64)
           (out_decimal num den : decimal) : M binary64 :=
  new_invariant <- _compute_invariant ;;
  inv <- gets invariant ;;
  diff <- lift (dec.sub new_invariant inv) ;;
  invariant_diff <- lift (dec.abs diff) ;;
  set_invariant new_invariant ;;;
  update_spot_price ;;;
  h <- gets swap_history ;;
  set_swap_history (h ++ [(label, amount_in, float out_decimal)]) ;;;
  _ <- lift (dec.div num den) ;;
  ret (float out_decimal).

Lemma swap_x_for_y_steps (dx : binary64) :
  swap_x_for_y dx =
  (dy_decimal <- get_dy_given_dx (Decimal dx) ;;
   iadd_balance 0 (Decimal dx) ;;;
   isub_balance 1 dy_decimal ;;;
   settle "X->Y" dx dy_decimal dy_decimal (Decimal dx)).
Proof. reflexivity. Qed.

Lemma swap_y_for_x_steps (dy : binary64) :
  swap_y_for_x dy =
  (dx_decimal <- get_dx_given_dy (Decimal dy) ;;
   iadd_balance 1 (Decimal dy) ;;;
   isub_balance 0 dx_decimal ;;;
   settle "Y->X" dy dx_decimal (Decimal dy) dx_decimal).
Proof. reflexivity. Qed.

Lemma preserves_modify {B} (f : pool -> B) (g : pool -> pool) :
  (forall s, f (g s) = f s) -> preserves f (modify g).
Proof. intros H s. apply H. Qed.

Lemma balances_preserved_by_set_invariant d : preserves balances (set_invariant d).
Proof. now apply preserves_modify. Qed.

Lemma balances_preserved_by_set_spot_price p : preserves balances (set_spot_price p).
Proof. now apply preserves_modify. Qed.

Lemma balances_preserved_by_set_price_history h :
  preserves balances (set_price_history h).
Proof. now apply preserves_modify. Qed.

Lemma balances_preserved_by_set_swap_history h :
  preserves balances (set_swap_history h).
Proof. now apply preserves_modify. Qed.

#[export] Hint Resolve balances_preserved_by_set_invariant
  balances_preserved_by_set_spot_price balances_preserved_by_set_price_history
  balances_preserved_by_set_swap_history : frame.

Lemma balances_preserved_by_update_spot_price :
  preserves balances update_spot_price.
Proof. unfold update_spot_price. auto 40 with frame. Qed.

Lemma balances_preserved_by_settle label a o num den :
  preserves balances (settle label a o num den).
Proof.
  unfold settle.
  apply preserves_bind;
    [apply read_only_preserves, read_only_compute_invariant | intros d].
  do 4 (apply preserves_bind; [auto with frame | intro]).
  apply preserves_bind; [apply balances_preserved_by_update_spot_price | intros _].
  auto 20 with frame.
Qed.

(** The two in-place updates of a swap of X for Y.  The second can raise
    after the first has been applied. *)
Lemma update_balances_x_for_y (s : pool) (x y dx dy : decimal) :
  balances s = [x; y] ->
  (iadd_balance 0 dx ;;; isub_balance 1 dy) s =
  match dec.add x dx with
  | Raise e => (Raise e, s)
  | Ok x' =>
      match dec.sub y dy with
      | Raise e => (Raise e, with_balances s [x'; y])
      | Ok y' => (Ok tt, with_balances s [x'; y'])
      end
  end.
Proof.
  intros Hb. destruct s as [bal a k sh ph inv sp]. cbn in Hb. subst bal.
  unfold iadd_balance, isub_balance, bind, gets, lift, set_balances, modify.
  cbn [balances]. rewrite getitem_pair_0.
  destruct (dec.add x dx) as [x'|e]; [|reflexivity].
  rewrite setitem_pair_0.
  cbn [balances amp n swap_history price_history invariant spot_price].
  rewrite getitem_pair_1.
  destruct (dec.sub y dy) as [y'|e]; reflexivity.
Qed.

Lemma update_balances_y_for_x (s : pool) (x y dy dx : decimal) :
  balances s = [x; y] ->
  (iadd_balance 1 dy ;;; isub_balance 0 dx) s =
  match dec.add y dy with
  | Raise e => (Raise e, s)
  | Ok y' =>
      match dec.sub x dx with
      | Raise e => (Raise e, with_balances s [x; y'])
      | Ok x' => (Ok tt, with_balances s [x'; y'])
      end
  end.
Proof.
  intros Hb. destruct s as [bal a k sh ph inv sp]. cbn in Hb. subst bal.
  unfold iadd_balance, isub_balance, bind, gets, lift, set_balances, modify.
  cbn [balances]. rewrite getitem_pair_1.
  destruct (dec.add y dy) as [y'|e]; [|reflexivity].
  rewrite setitem_pair_1.
  cbn [balances amp n swap_history price_history invariant spot_price].
  rewrite getitem_pair_0.
  destruct (dec.sub x dx) as [x'|e]; reflexivity.
Qed.

(** A swap whose quote returns [dy] runs [settle] on the object with both
    balances already updated; a swap whose quote raises changes nothing. *)
Lemma swap_x_for_y_run (s : pool) (x y : decimal) (dx : binary64) :
  balances s = [x; y] ->
  swap_x_for_y dx s =
  match fst (get_dy_given_dx (Decimal dx) s) with
  | Ok dy =>
      match dec.add x (Decimal dx) with
      | Raise e => (Raise e, s)
      | Ok x' =>
          match dec.sub y dy with
          | Raise e => (Raise e, with_balances s [x'; y])
          | Ok y' => settle "X->Y" dx dy dy (Decimal dx)
                            (with_balances s [x'; y'])
          end
      end
  | Raise e => (Raise e, s)
  end.
Proof.
  intros Hb. rewrite swap_x_for_y_steps. unfold bind at 1.
  rewrite (read_only_run _ s (read_only_get_dy_given_dx (Decimal dx))).
  destruct (fst (get_dy_given_dx (Decimal dx) s)) as [dy|e]; [|reflexivity].
  cbn [fst].
  pose proof (update_balances_x_for_y s x y (Decimal dx) dy Hb) as Hu.
  unfold bind in *.
  destruct (iadd_balance 0 (Decimal dx) s) as [[[]|e1] s1].
  - rewrite Hu. destruct (dec.add x (Decimal dx)) as [x'|e]; [|reflexivity].
    destruct (dec.sub y dy); reflexivity.
  - destruct (dec.add x (Decimal dx)) as [x'|e];
      [destruct (dec.sub y dy)|]; inversion Hu; reflexivity.
Qed.

Lemma swap_y_for_x_run (s : pool) (x y : decimal) (dy : binary64) :
  balances s = [x; y] ->
  swap_y_for_x dy s =
  match fst (get_dx_given_dy (Decimal dy) s) with
  | Ok dx =>
      match dec.add y (Decimal dy) with
      | Raise e => (Raise e, s)
      | Ok y' =>
          match dec.sub x dx with
          | Raise e => (Raise e, with_balances s [x; y'])
          | Ok x' => settle "Y->X" dy dx (Decimal dy) dx
                            (with_balances s [x'; y'])
          end
      end
  | Raise e => (Raise e, s)
  end.
Proof.
  intros Hb. rewrite swap_y_for_x_steps. unfold bind at 1.
  rewrite (read_only_run _ s (read_only_get_dx_given_dy (Decimal dy))).
  destruct (fst (get_dx_given_dy (Decimal dy) s)) as [dx|e]; [|reflexivity].
  cbn [fst].
  pose proof (update_balances_y_for_x s x y (Decimal dy) dx Hb) as Hu.
  unfold bind in *.
  destruct (iadd_balance 1 (Decimal dy) s) as [[[]|e1] s1].
  - rewrite Hu. destruct (dec.add y (Decimal dy)) as [y'|e]; [|reflexivity].
    destruct (dec.sub x dx); reflexivity.
  - destruct (dec.add y (Decimal dy)) as [y'|e];
      [destruct (dec.sub x dx)|]; inversion Hu; reflexivity.
Qed.

Lemma invariant_preserved_by_update_spot_price :
  preserves invariant update_spot_price.
Proof.
  unfold update_spot_price.
  repeat (apply preserves_bind; [auto with frame | intro]).
  - now apply preserves_modify.
  - now apply preserves_modify.
Qed.

Lemma swap_history_preserved_by_update_spot_price :
  preserves swap_history update_spot_price.
Proof.
  unfold update_spot_price.
  repeat (apply preserves_bind; [auto with frame | intro]).
  - now apply preserves_modify.
  - now apply preserves_modify.
Qed.

(** When [settle] returns, the cached invariant is the one recomputed on the
    object it started from, and the value returned is the amount out. *)
Lemma settle_returns label a o num den (s1 s' : pool) (r : binary64) :
  settle label a o num den s1 = (Ok r, s') ->
  _compute_invariant s1 = (Ok (invariant s'), s1) /\ r = float o /\
  swap_history s' = swap_history s1 ++ [(label, a, float o)].
Proof.
  unfold settle. unfold bind at 1.
  rewrite (read_only_run _ s1 read_only_compute_invariant).
  destruct (fst (_compute_invariant s1)) as [d|e]; [|discriminate].
  destruct s1 as [bal am k sh ph inv sp].
  unfold bind, gets, set_invariant, set_swap_history, modify, lift, ret.
  cbn [balances amp n swap_history price_history invariant spot_price].
  destruct (dec.sub d inv) as [diff|e]; [|discriminate].
  destruct (dec.abs diff) as [adiff|e]; [|discriminate].
  set (s2 := mkPool bal am k sh ph d sp).
  destruct (update_spot_price s2) as [[[]|e] s3] eqn:Hu; [|discriminate].
  assert (Hinv : invariant s3 = d).
  { change d with (invariant s2). replace s3 with (snd (update_spot_price s2))
      by now rewrite Hu.
    apply invariant_preserved_by_update_spot_price. }
  assert (Hsh : swap_history s3 = sh).
  { change sh with (swap_history s2). replace s3 with (snd (update_spot_price s2))
      by now rewrite Hu.
    apply swap_history_preserved_by_update_spot_price. }
  destruct (dec.div num den) as [q|e]; [|discriminate].
  intros H. injection H as <- <-.
  cbn [invariant swap_history]. rewrite Hinv, Hsh. auto.
Qed.

(** ** Signs of decimal results *)

Lemma fix_shape (s : bool) (c : N) (e : Z) (d : decimal) :
  dec._fix s c e = Ok d -> exists c' e', d = DFin s c' e'.
Proof.
  unfold dec._fix. destruct c as [|p].
  - intros H. injection H as <-. eauto.
  - destruct (dec.Etop <? _); [discriminate|].
    destruct (e <? _).
    + destruct (dec.prec <? _); (destruct (dec.Etop <? _); [discriminate|]);
        intros H; injection H as <-; eauto.
    + intros H. injection H as <-. eauto.
Qed.

Lemma fix_zero (s : bool) (e : Z) (d : decimal) :
  dec._fix s 0 e = Ok d -> dec.positive d = false.
Proof. intros H. injection H as <-. now destruct s. Qed.

Lemma fix_negative (c : N) (e : Z) (d : decimal) :
  dec._fix true c e = Ok d -> dec.positive d = false.
Proof.
  intros H. apply fix_shape in H. destruct H as (c' & e' & ->). reflexivity.
Qed.

Lemma scaled_zero (s : bool) (e k : Z) : dec.scaled s 0 e k = 0.
Proof. unfold dec.scaled. now destruct s. Qed.

Lemma scaled_sign (s : bool) (p : positive) (e k : Z) :
  k <= e ->
  if s then dec.scaled s (Npos p) e k < 0 else 0 < dec.scaled s (Npos p) e k.
Proof.
  intros H. unfold dec.scaled. cbv zeta.
  assert (0 < 10 ^ (e - k)) by (apply Z.pow_pos_nonneg; lia).
  assert (0 < Z.of_N (Npos p) * 10 ^ (e - k)) by (apply Z.mul_pos_pos; lia).
  destruct s; lia.
Qed.

Lemma scaled_neg (s : bool) (c : N) (e k : Z) :
  dec.scaled (negb s) c e k = - dec.scaled s c e k.
Proof. unfold dec.scaled. destruct s; cbn; lia. Qed.

(** Taking away at least as much as there is leaves nothing positive,
    whatever the rounding. *)
Lemma sub_not_positive (a b r : decimal) :
  dec.leb a b = true -> dec.sub a b = Ok r -> dec.positive r = false.
Proof.
  unfold dec.sub.
  destruct a as [s c e|s|], b as [t d f|t|]; cbn [dec.leb dec.neg dec.add];
    try discriminate.
  - (* finite - finite *)
    cbv zeta. intros Hle.
    apply Z.leb_le in Hle.
    destruct c as [|c], d as [|d].
    + apply fix_zero.
    + rewrite scaled_zero in Hle.
      pose proof (scaled_sign t d f (Z.min e f) ltac:(lia)) as Ht.
      destruct t; [lia|]. apply fix_negative.
    + rewrite scaled_zero in Hle.
      pose proof (scaled_sign s c e (Z.min e f) ltac:(lia)) as Hs.
      destruct s; [|lia]. apply fix_negative.
    + rewrite scaled_neg.
      destruct (_ =? 0) eqn:E0; [apply fix_zero|].
      apply Z.eqb_neq in E0.
      replace (_ <? 0) with true by (symmetry; apply Z.ltb_lt; lia).
      apply fix_negative.
  - (* finite - infinity *)
    intros Ht H. destruct t; [discriminate|]. injection H as <-. reflexivity.
  - (* infinity - finite *)
    intros -> H. injection H as <-. reflexivity.
  - (* infinity - infinity *)
    intros Hst. destruct s, t; cbn; try discriminate.
    intros H; injection H as <-; reflexivity.
Qed.

(** ** Special values of binary64 *)

(** Rounding a non-negative integer never gives nan. *)
Lemma shr_1_nonneg (mrs : shr_record) :
  0 <= shr_m mrs -> 0 <= shr_m (shr_1 mrs).
Proof.
  destruct mrs as [m r s]. cbn [shr_m]. intros H.
  destruct m as [|[p|p|]|p]; cbn; lia.
Qed.

Lemma iter_pos_shr_1_nonneg (k : positive) (mrs : shr_record) :
  0 <= shr_m mrs -> 0 <= shr_m (iter_pos shr_1 k mrs).
Proof.
  revert mrs. induction k as [k IH|k IH|]; intros mrs H; cbn [iter_pos].
  - apply IH, IH, shr_1_nonneg, H.
  - apply IH, IH, H.
  - apply shr_1_nonneg, H.
Qed.

Lemma shr_fexp_nonneg (m e : Z) (l : location) :
  0 <= m -> 0 <= shr_m (fst (shr_fexp b64.prec b64.emax m e l)).
Proof.
  intros H. unfold shr_fexp, shr.
  assert (H0 : 0 <= shr_m (shr_record_of_loc m l))
    by (destruct l as [|[]]; exact H).
  destruct (_ - e) as [|k|k]; cbn [fst]; try exact H0.
  now apply iter_pos_shr_1_nonneg.
Qed.

Lemma round_nearest_even_nonneg (m : Z) (l : location) :
  0 <= m -> 0 <= round_nearest_even m l.
Proof.
  intros H. destruct l as [|[]]; cbn [round_nearest_even]; try lia.
  destruct (Z.even m); lia.
Qed.

Lemma binary_round_aux_not_nan (s : bool) (m e : Z) (l : location) :
  0 <= m -> b64.is_nan (binary_round_aux b64.prec b64.emax s m e l) = false.
Proof.
  intros H. unfold binary_round_aux.
  pose proof (shr_fexp_nonneg m e l H) as H1.
  destruct (shr_fexp b64.prec b64.emax m e l) as [mrs' e']. cbn [fst] in H1.
  pose proof (shr_fexp_nonneg _ e' loc_Exact
                (round_nearest_even_nonneg _ (loc_of_shr_record mrs') H1)) as H2.
  destruct (shr_fexp _ _ _ e' loc_Exact) as [mrs'' e'']. cbn [fst] in H2.
  destruct (shr_m mrs'') as [|k|k]; [reflexivity| |lia].
  destruct (e'' <=? _); reflexivity.
Qed.

Lemma binary_round_not_nan (s : bool) (m : positive) (e : Z) :
  b64.is_nan (binary_round b64.prec b64.emax s m e) = false.
Proof.
  unfold binary_round. destruct (shl_align _ _ _) as [mz ez].
  now apply binary_round_aux_not_nan.
Qed.

Lemma binary_normalize_not_nan (m e : Z) (sz : bool) :
  b64.is_nan (binary_normalize b64.prec b64.emax m e sz) = false.
Proof.
  destruct m; cbn [binary_normalize]; [reflexivity| |];
    apply binary_round_not_nan.
Qed.

(** Numbers that are neither infinite nor nan have a sum, a difference and
    a product that are not nan, and a quotient too unless both are zero. *)
Lemma add_finite_not_nan (x y : binary64) :
  b64.is_finite x = true -> b64.is_finite y = true ->
  b64.is_nan (b64.add x y) = false.
Proof.
  destruct x as [sx|sx| |sx mx ex], y as [sy|sy| |sy my ey]; try discriminate;
    intros _ _; unfold b64.add; cbn [SFadd].
  - now destruct sx, sy.
  - reflexivity.
  - reflexivity.
  - apply binary_normalize_not_nan.
Qed.

Lemma sub_finite_not_nan (x y : binary64) :
  b64.is_finite x = true -> b64.is_finite y = true ->
  b64.is_nan (b64.sub x y) = false.
Proof.
  destruct x as [sx|sx| |sx mx ex], y as [sy|sy| |sy my ey]; try discriminate;
    intros _ _; unfold b64.sub; cbn [SFsub].
  - now destruct sx, sy.
  - reflexivity.
  - reflexivity.
  - apply binary_normalize_not_nan.
Qed.

Lemma mul_finite_not_nan (x y : binary64) :
  b64.is_finite x = true -> b64.is_finite y = true ->
  b64.is_nan (b64.mul x y) = false.
Proof.
  destruct x as [sx|sx| |sx mx ex], y as [sy|sy| |sy my ey]; try discriminate;
    intros _ _; unfold b64.mul; cbn [SFmul]; try reflexivity.
  now apply binary_round_aux_not_nan.
Qed.

Lemma div_finite_not_nan (x y : binary64) :
  b64.is_nan x = false -> b64.is_finite y = true -> b64.is_zero y = false ->
  b64.is_nan (b64.div x y) = false.
Proof.
  destruct x as [sx|sx| |sx mx ex], y as [sy|sy| |sy my ey]; try discriminate;
    intros _ _ _; unfold b64.div; cbn [SFdiv]; try reflexivity.
  unfold SFdiv_core_binary. cbv zeta.
  match goal with
  | |- context [Z.div_eucl ?a ?b] =>
      assert (Hq : 0 <= fst (Z.div_eucl a b));
        [| destruct (Z.div_eucl a b) as [q r] ]
  end.
  - match goal with
    | |- 0 <= fst (Z.div_eucl ?a ?b) =>
        change (fst (Z.div_eucl a b)) with (a / b); apply Z.div_pos; [|lia]
    end.
    destruct (_ - _ - _) as [|k|k]; try lia.
    rewrite Z.shiftl_mul_pow2 by lia.
    apply Z.mul_nonneg_nonneg; [lia|]. apply Z.pow_nonneg. lia.
  - cbn [fst] in Hq. now apply binary_round_aux_not_nan.
Qed.

Lemma power_finite_not_nan (x : binary64) (k : positive) :
  b64.is_finite x = true -> b64.is_nan (b64.power x k) = false.
Proof.
  destruct x as [sx|sx| |sx mx ex]; try discriminate; intros _;
    cbn [b64.power]; [reflexivity|].
  apply binary_round_not_nan.
Qed.

(** nan is absorbing. *)
Lemma add_nan_l (x : binary64) : b64.add S754_nan x = S754_nan.
Proof. now destruct x. Qed.
Lemma add_nan_r (x : binary64) : b64.add x S754_nan = S754_nan.
Proof. now destruct x. Qed.
Lemma sub_nan_l (x : binary64) : b64.sub S754_nan x = S754_nan.
Proof. now destruct x. Qed.
Lemma sub_nan_r (x : binary64) : b64.sub x S754_nan = S754_nan.
Proof. now destruct x. Qed.
Lemma mul_nan_l (x : binary64) : b64.mul S754_nan x = S754_nan.
Proof. now destruct x. Qed.
Lemma mul_nan_r (x : binary64) : b64.mul x S754_nan = S754_nan.
Proof. now destruct x. Qed.
Lemma div_nan_l (x : binary64) : b64.div S754_nan x = S754_nan.
Proof. now destruct x. Qed.
Lemma div_nan_r (x : binary64) : b64.div x S754_nan = S754_nan.
Proof. now destruct x. Qed.
Lemma eqb_nan_l (x : binary64) : b64.eqb S754_nan x = false.
Proof. now destruct x. Qed.
Lemma eqb_nan_r (x : binary64) : b64.eqb x S754_nan = false.
Proof. now destruct x. Qed.

Ltac nan_absorbs :=
  repeat rewrite ?add_nan_l, ?add_nan_r, ?sub_nan_l, ?sub_nan_r, ?mul_nan_l,
                 ?mul_nan_r, ?div_nan_l, ?div_nan_r, ?eqb_nan_l, ?eqb_nan_r.

(** ** The root finder on nan *)

Lemma val_mark (np : bool) (v : binary64) : val (mark np v) = v.
Proof. now destruct np. Qed.

Lemma is_np_mark (np : bool) (v : binary64) : is_np (mark np v) = np.
Proof. now destruct np. Qed.

Lemma np_nan (a : number) : is_np a = true -> val a = S754_nan -> a = Np S754_nan.
Proof. destruct a; cbn; intros H ->; [discriminate|reflexivity]. Qed.

(** A quotient with a nan operand is nan, unless the division raises. *)
Lemma truediv_nan (a b : number) :
  val a = S754_nan \/ val b = S754_nan ->
  match truediv a b with
  | Ok r => val r = S754_nan /\ is_np r = (is_np a || is_np b)
  | Raise _ => True
  end.
Proof.
  intros H. unfold truediv.
  destruct (is_np a || is_np b).
  - cbn. destruct H as [-> | ->]; now nan_absorbs.
  - destruct (b64.is_zero (val b)); [exact I|].
    cbn. destruct H as [-> | ->]; now nan_absorbs.
Qed.

(** The next trial point is nan as soon as one of the two residuals or one
    of the two points is. *)
Lemma secant_point_nan (qa qb pa pb : number) (s : pool) :
  is_np pa = true ->
  val qa = S754_nan \/ val qb = S754_nan \/
  val pa = S754_nan \/ val pb = S754_nan ->
  match optimize.secant_point qa qb pa pb s with
  | (Ok p, s') => p = Np S754_nan /\ s' = s
  | (Raise _, s') => s' = s
  end.
Proof.
  intros Hnp H. unfold optimize.secant_point, bind, lift.
  destruct (truediv (- qa) qb) as [r|e] eqn:Er; [|reflexivity].
  destruct (truediv qa qb) as [t|e] eqn:Et; [|reflexivity].
  assert (Hnum : val (r * pb + pa)%num = S754_nan).
  { unfold fadd, fmul. rewrite !val_mark.
    destruct H as [H|[H|[H|H]]].
    - pose proof (truediv_nan (- qa) qb) as T. rewrite Er in T.
      destruct T as [-> _]; [|now nan_absorbs].
      left. unfold fneg. rewrite val_mark, H. reflexivity.
    - pose proof (truediv_nan (- qa) qb (or_intror H)) as T. rewrite Er in T.
      destruct T as [-> _]. now nan_absorbs.
    - rewrite H. now nan_absorbs.
    - rewrite H. now nan_absorbs. }
  assert (Hnp' : is_np (r * pb + pa)%num = true).
  { unfold fadd. rewrite is_np_mark, Hnp. apply orb_true_r. }
  pose proof (truediv_nan (r * pb + pa)%num (Py lit_1 - t)%num (or_introl Hnum)) as T.
  destruct (truediv (r * pb + pa)%num (Py lit_1 - t)%num) as [p|e];
    [|reflexivity].
  destruct T as [Hv Ht]. rewrite Hnp' in Ht. cbn in Ht.
  split; [now apply np_nan|reflexivity].
Qed.

Lemma isclose_nan (b rtol atol : binary64) :
  optimize.isclose S754_nan b rtol atol = false.
Proof. unfold optimize.isclose. cbn. now nan_absorbs. Qed.

(** Once the latest trial point is nan the iteration never returns: it
    stops on two equal residuals with different points, or runs to the
    cap. *)
Lemma secant_nan (func : number -> M number) (tol : binary64) :
  forall remaining itr funcalls p0 q0 q1 s,
    is_np p0 = true ->
    exists e s',
      optimize.secant func tol remaining itr funcalls p0 q0 (Np S754_nan) q1 s
      = (Raise e, s').
Proof.
  induction remaining as [|k IH]; intros itr funcalls p0 q0 q1 s Hp0;
    cbn [optimize.secant].
  - unfold raise. eauto.
  - destruct (b64.eqb (val q1) (val q0)).
    + cbn [val]. rewrite eqb_nan_l. cbn [negb]. unfold raise. eauto.
    + unfold bind at 1.
      assert (Hp : forall qa qb pa pb, is_np pa = true ->
                 val pa = S754_nan \/ val pb = S754_nan ->
                 match optimize.secant_point qa qb pa pb s with
                 | (Ok p, s') => p = Np S754_nan /\ s' = s
                 | (Raise _, s') => s' = s
                 end).
      { intros. apply secant_point_nan; tauto. }
      destruct (b64.ltb _ _).
      * specialize (Hp q0 q1 p0 (Np S754_nan) Hp0 (or_intror eq_refl)).
        destruct (optimize.secant_point _ _ _ _ s) as [[p|e] s1]; [|eauto].
        destruct Hp as [-> ->]. cbn [val]. rewrite isclose_nan.
        unfold bind. destruct (func (Np S754_nan) s) as [[q|e] s2]; [|eauto].
        now apply IH.
      * specialize (Hp q1 q0 (Np S754_nan) p0 eq_refl (or_introl eq_refl)).
        destruct (optimize.secant_point _ _ _ _ s) as [[p|e] s1]; [|eauto].
        destruct Hp as [-> ->]. cbn [val]. rewrite isclose_nan.
        unfold bind. destruct (func (Np S754_nan) s) as [[q|e] s2]; [|eauto].
        now apply IH.
Qed.

(** A computation that raises, whatever the exception. *)
Definition raises {A} (m : M A) (s : pool) : Prop :=
  exists e s', m s = (Raise e, s').

Lemma raises_bind_l {A B} (m : M A) (k : A -> M B) (s : pool) :
  raises m s -> raises (bind m k) s.
Proof. intros (e & s' & H). exists e, s'. unfold bind. now rewrite H. Qed.

Lemma raises_bind_r {A B} (m : M A) (k : A -> M B) (s s1 : pool) (a : A) :
  m s = (Ok a, s1) -> raises (k a) s1 -> raises (bind m k) s.
Proof. intros H (e & s' & Hk). exists e, s'. unfold bind. now rewrite H. Qed.

Lemma raises_not_ok {A} (m : M A) (s s' : pool) (a : A) :
  raises m s -> m s <> (Ok a, s').
Proof. intros (e & s1 & H). rewrite H. discriminate. Qed.

(** From a guess that is nan the root finder raises. *)
Lemma newton_full_nan_guess (func : number -> M number) (x0 : number)
      (tol : binary64) (maxiter : nat) (s : pool) :
  val x0 = S754_nan -> raises (optimize.newton_full func x0 tol maxiter) s.
Proof.
  intros Hx. unfold optimize.newton_full, raises.
  destruct (b64.leb tol b64.zero); [unfold raise; eauto|].
  destruct (maxiter <? 1)%nat; [unfold raise; eauto|].
  rewrite Hx. cbn [val]. rewrite mul_nan_l.
  unfold fmul, fadd. cbn [is_np val orb mark]. rewrite mul_nan_l. cbn [val].
  rewrite add_nan_l.
  unfold bind.
  destruct (func (Np S754_nan) s) as [[q0|e] s1]; [|eauto].
  destruct (func (Np S754_nan) s1) as [[q1|e] s2]; [|eauto].
  destruct (b64.ltb _ _); now apply secant_nan.
Qed.

(** With an objective whose every value is nan the root finder raises. *)
Lemma newton_full_nan_objective (func : number -> M number) (x0 : number)
      (tol : binary64) (maxiter : nat) (s : pool) :
  (forall p, match func p s with
             | (Ok q, s') => val q = S754_nan /\ s' = s
             | (Raise _, _) => True
             end) ->
  raises (optimize.newton_full func x0 tol maxiter) s.
Proof.
  intros Hf. unfold optimize.newton_full, raises.
  destruct (b64.leb tol b64.zero); [unfold raise; eauto|].
  destruct (maxiter <? 1)%nat eqn:Hm; [unfold raise; eauto|].
  cbv zeta. unfold bind.
  match goal with |- context [func ?p s] =>
    pose proof (Hf p) as H0; destruct (func p s) as [[q0|e] s1]; [|eauto] end.
  destruct H0 as [H0 ->].
  match goal with |- context [func ?p s] =>
    pose proof (Hf p) as H1; destruct (func p s) as [[q1|e] s1]; [|eauto] end.
  destruct H1 as [H1 ->].
  rewrite H0, H1. cbn [b64.abs SFabs b64.ltb SFltb SFcompare].
  destruct maxiter as [|k]; [discriminate|].
  cbn [optimize.secant]. rewrite H0, H1. cbn [b64.eqb SFeqb SFcompare].
  cbn [b64.abs SFabs b64.ltb SFltb SFcompare].
  unfold bind.
  match goal with |- context [optimize.secant_point ?a ?b ?c ?d s] =>
    pose proof (secant_point_nan a b c d s) as Hp;
    destruct (optimize.secant_point a b c d s) as [[p|e] s1]; [|eauto] end.
  destruct Hp as [-> ->].
  { unfold fadd. rewrite is_np_mark. unfold fmul. rewrite is_np_mark. reflexivity. }
  { now left. }
  cbn [val]. rewrite isclose_nan.
  destruct (func (Np S754_nan) s) as [[q|e] s2]; [|eauto].
  apply secant_nan.
  unfold fadd. rewrite is_np_mark. unfold fmul. rewrite is_np_mark. reflexivity.
Qed.

(** The root finder never returns nan. *)
Lemma equal_halved_not_nan (a b : binary64) :
  b64.eqb a b = true ->
  b64.is_nan (b64.div (b64.add a b) lit_2) = false.
Proof.
  intros H.
  destruct a as [[]|[]| |[] ma ea], b as [[]|[]| |[] mb eb];
    cbn in H; try discriminate H; try reflexivity;
    (apply div_finite_not_nan; [|reflexivity|reflexivity]);
    now apply add_finite_not_nan.
Qed.

Lemma isclose_not_nan (a b rtol atol : binary64) :
  optimize.isclose a b rtol atol = true -> b64.is_nan a = false.
Proof.
  destruct a; try reflexivity. now rewrite isclose_nan.
Qed.

Lemma secant_not_nan (func : number -> M number) (tol : binary64) :
  forall remaining itr funcalls p0 q0 p1 q1 s r s',
    optimize.secant func tol remaining itr funcalls p0 q0 p1 q1 s = (Ok r, s') ->
    b64.is_nan (val (optimize.root r)) = false.
Proof.
  induction remaining as [|k IH]; intros itr funcalls p0 q0 p1 q1 s r s';
    cbn [optimize.secant].
  - discriminate.
  - destruct (b64.eqb (val q1) (val q0)).
    + destruct (b64.eqb (val p1) (val p0)) eqn:Ep; [|discriminate].
      cbn [negb]. unfold bind, lift, truediv, ret. cbn [is_np val orb].
      unfold fadd. rewrite is_np_mark, val_mark.
      destruct (is_np p1 || is_np p0); cbn [orb b64.is_zero lit_2];
        intros H; injection H as <- _; cbn [optimize.root val];
        now apply equal_halved_not_nan.
    + unfold bind at 1.
      destruct (if b64.ltb _ _ then _ else _) as [[p|e] s1]; [|discriminate].
      destruct (optimize.isclose _ _ _ _) eqn:Ec.
      * intros H. injection H as <- _. cbn [optimize.root].
        eapply isclose_not_nan, Ec.
      * unfold bind. destruct (func p s1) as [[q|e] s2]; [|discriminate].
        apply IH.
Qed.

Lemma newton_not_nan (func : number -> M number) (x0 : number)
      (tol : binary64) (maxiter : nat) (s s' : pool) (r : number) :
  optimize.newton func x0 tol maxiter s = (Ok r, s') ->
  b64.is_nan (val r) = false.
Proof.
  unfold optimize.newton, optimize.newton_full.
  destruct (b64.leb tol b64.zero); [discriminate|].
  destruct (maxiter <? 1)%nat; [discriminate|].
  cbv zeta. unfold bind at 1 2 3.
  match goal with |- context [func ?p s] =>
    destruct (func p s) as [[q0|e] s1]; [|discriminate] end.
  match goal with |- context [func ?p s1] =>
    destruct (func p s1) as [[q1|e] s2]; [|discriminate] end.
  destruct (b64.ltb _ _).
  - destruct (optimize.secant _ _ _ _ _ _ _ _ _ s2) as [[rr|e] s3] eqn:E;
      [|discriminate].
    intros H. injection H as <- _. eapply secant_not_nan, E.
  - destruct (optimize.secant _ _ _ _ _ _ _ _ _ s2) as [[rr|e] s3] eqn:E;
      [|discriminate].
    intros H. injection H as <- _. eapply secant_not_nan, E.
Qed.

(** ** Digits and exponents of decimals *)

Lemma ndigits_from_lower (fuel : nat) (c : Z) :
  0 < c -> c < 2 ^ Z.of_nat fuel ->
  1 <= ndigits_from fuel c /\ 10 ^ (ndigits_from fuel c - 1) <= c.
Proof.
  revert c. induction fuel as [|fuel IH]; intros c Hc Hlt.
  - cbn in Hlt. lia.
  - cbn [ndigits_from]. destruct (c <? 10) eqn:E.
    + cbn. lia.
    + apply Z.ltb_ge in E.
      assert (H1 : 0 < c / 10) by (apply Z.div_str_pos; lia).
      assert (H2 : c / 10 < 2 ^ Z.of_nat fuel).
      { apply Z.div_lt_upper_bound; [lia|].
        rewrite Nat2Z.inj_succ, Z.pow_succ_r in Hlt by lia.
        assert (0 < 2 ^ Z.of_nat fuel) by (apply Z.pow_pos_nonneg; lia). lia. }
      destruct (IH (c / 10) H1 H2) as [G1 G2]. split; [lia|].
      replace (1 + ndigits_from fuel (c / 10) - 1)
        with (Z.succ (ndigits_from fuel (c / 10) - 1)) by lia.
      rewrite Z.pow_succ_r by lia.
      pose proof (Z.mul_div_le c 10 ltac:(lia)). lia.
Qed.

Lemma ndigits_lower (p : positive) :
  1 <= ndigits (Npos p) /\ 10 ^ (ndigits (Npos p) - 1) <= Zpos p.
Proof.
  unfold ndigits.
  destruct ((0 <=? ilog10 p 1) && (10 ^ ilog10 p 1 <=? Z.pos p)
            && (Z.pos p <? 10 ^ (ilog10 p 1 + 1))) eqn:E.
  - apply andb_prop in E. destruct E as [E _].
    apply andb_prop in E. destruct E as [E1 E2].
    apply Z.leb_le in E1, E2. split; [lia|].
    now replace (ilog10 p 1 + 1 - 1) with (ilog10 p 1) by lia.
  - apply ndigits_from_lower; [lia|].
    rewrite positive_nat_Z.
    pose proof (Pos.size_gt p) as H.
    apply Pos2Z.pos_lt_pos in H. now rewrite Pos2Z.inj_pow in H.
Qed.

Lemma round_half_even_lower (c k : Z) : c / 10 ^ k <= dec.round_half_even c k.
Proof.
  unfold dec.round_half_even. cbv zeta.
  destruct (_ ?= _); [destruct (Z.even _)| |]; lia.
Qed.

(** A coefficient other than zero stays so through the rounding to the
    context, unless the exponent is below the least one. *)
Lemma fix_nonzero (s : bool) (p : positive) (e : Z) (d : decimal) :
  dec.Etiny <= e -> dec._fix s (Npos p) e = Ok d ->
  exists c' e', d = DFin s (Npos c') e' /\ e <= e'.
Proof.
  intros He. unfold dec._fix.
  destruct (ndigits_lower p) as [Hn1 Hn2].
  set (nd := ndigits (Npos p)) in *.
  destruct (dec.Etop <? nd + e - dec.prec); [discriminate|].
  cbv zeta.
  destruct (e <? Z.max (nd + e - dec.prec) dec.Etiny) eqn:E.
  - apply Z.ltb_lt in E.
    assert (Hk : 0 < nd - dec.prec) by lia.
    replace (Z.max (nd + e - dec.prec) dec.Etiny) with (nd + e - dec.prec) in * by lia.
    replace (nd + e - dec.prec - e) with (nd - dec.prec) by lia.
    set (k := nd - dec.prec) in *.
    assert (Hq : 10 ^ 27 <= Z.of_N (Npos p) / 10 ^ k).
    { apply Z.div_le_lower_bound; [apply Z.pow_pos_nonneg; lia|].
      rewrite <- Z.pow_add_r by lia.
      replace (k + 27) with (nd - 1) by (unfold k, dec.prec; lia).
      exact Hn2. }
    pose proof (round_half_even_lower (Z.of_N (Npos p)) k) as Hr.
    set (c1 := dec.round_half_even (Z.of_N (Npos p)) k) in *.
    assert (Hc1 : 10 ^ 27 <= c1) by lia.
    assert (Hc2 : 0 < c1 / 10).
    { apply Z.div_str_pos. change (10 ^ 27) with 1000000000000000000000000000 in Hc1.
      lia. }
    destruct (dec.prec <? ndigits (Z.to_N c1)).
    + destruct (dec.Etop <? _); [discriminate|].
      intros H. injection H as <-.
      destruct (c1 / 10) as [|c2|c2] eqn:E2; try lia.
      exists c2, (nd + e - dec.prec + 1). split; [reflexivity|lia].
    + destruct (dec.Etop <? _); [discriminate|].
      intros H. injection H as <-.
      change (10 ^ 27) with 1000000000000000000000000000 in Hc1.
      destruct c1 as [|c2|c2]; try lia.
      exists c2, (nd + e - dec.prec). split; [reflexivity|lia].
  - intros H. injection H as <-. exists p, e. split; [reflexivity|lia].
Qed.

(** Decimals whose exponent is not extremely small: every decimal read from
    a double is one. *)
Definition moderate (b : decimal) : Prop :=
  match b with
  | DFin _ _ e => -400 <= e
  | _ => True
  end.

Lemma strip_zeros_exp (fuel : nat) (c x : Z) : x <= snd (strip_zeros fuel c x).
Proof.
  revert c x. induction fuel as [|fuel IH]; intros c x; cbn [strip_zeros].
  - cbn. lia.
  - destruct (_ && _); [|cbn; lia].
    specialize (IH (c / 10) (x + 1)). lia.
Qed.

Lemma shortest_from_exp (fuel : nat) s m e num den k10 n :
  k10 - n - Z.of_nat fuel + 1 <= snd (shortest_from fuel s m e num den k10 n).
Proof.
  revert n. induction fuel as [|fuel IH]; intros n; cbn [shortest_from].
  - destruct (0 <=? k10 - n + 1); cbn [snd]; lia.
  - destruct (0 <=? k10 - n + 1);
      (destruct (b64.same _ _); destruct (b64.same _ _); cbn [snd]; try lia;
       specialize (IH (n + 1)); lia).
Qed.

Lemma ilog10_down_lower (fuel : nat) (n d k : Z) :
  k - Z.of_nat fuel <= ilog10_down fuel n d k.
Proof.
  revert k. induction fuel as [|fuel IH]; intros k; cbn [ilog10_down].
  - lia.
  - destruct (if 0 <=? k then _ else _); [lia|].
    specialize (IH (k - 1)). lia.
Qed.

Lemma ilog10_up_lower (fuel : nat) (n d k : Z) : k <= ilog10_up fuel n d k.
Proof.
  revert k. induction fuel as [|fuel IH]; intros k; cbn [ilog10_up].
  - lia.
  - cbv zeta. destruct (if 0 <=? k + 1 then _ else _); [|lia].
    specialize (IH (k + 1)). lia.
Qed.

Lemma shortest_exp (s : bool) (m : positive) (e : Z) :
  -1074 <= e -> -360 <= snd (shortest s m e).
Proof.
  intros He. unfold shortest.
  destruct (0 <=? e) eqn:E.
  - apply Z.leb_le in E.
    set (num := Z.pos m * 2 ^ e).
    assert (Hnum : 0 < num).
    { unfold num. apply Z.mul_pos_pos; [lia|]. apply Z.pow_pos_nonneg; lia. }
    set (k10 := ilog10 (Z.to_pos num) (Z.to_pos 1)).
    assert (Hk : -5 <= k10).
    { unfold k10, ilog10.
      match goal with |- _ <= ilog10_up ?f ?a ?b ?c =>
        pose proof (ilog10_up_lower f a b c) as H1 end.
      match type of H1 with ilog10_down ?f ?a ?b ?c <= _ =>
        pose proof (ilog10_down_lower f a b c) as H2 end.
      assert (H3 : -1 <= (Z.log2 (Z.pos (Z.to_pos num)) - Z.log2 (Z.pos (Z.to_pos 1)) - 1)
                         * 30103 / 100000).
      { apply Z.div_le_lower_bound; [lia|].
        pose proof (Z.log2_nonneg (Z.pos (Z.to_pos num))).
        change (Z.log2 (Z.pos (Z.to_pos 1))) with 0. lia. }
      change (Z.of_nat 4) with 4 in H2. lia. }
    pose proof (shortest_from_exp 16 s m e num 1 k10 1) as H.
    destruct (shortest_from 16 s m e num 1 k10 1) as [c x]. cbn [snd] in H.
    pose proof (strip_zeros_exp 17 c x). change (Z.of_nat 16) with 16 in H. lia.
  - apply Z.leb_gt in E.
    set (den := 2 ^ (- e)).
    assert (Hden : 0 < den) by (apply Z.pow_pos_nonneg; lia).
    set (k10 := ilog10 (Z.to_pos (Z.pos m)) (Z.to_pos den)).
    assert (Hk : -328 <= k10).
    { unfold k10, ilog10.
      match goal with |- _ <= ilog10_up ?f ?a ?b ?c =>
        pose proof (ilog10_up_lower f a b c) as H1 end.
      match type of H1 with ilog10_down ?f ?a ?b ?c <= _ =>
        pose proof (ilog10_down_lower f a b c) as H2 end.
      assert (H3 : -324 <= (Z.log2 (Z.pos (Z.to_pos (Z.pos m)))
                            - Z.log2 (Z.pos (Z.to_pos den)) - 1)
                           * 30103 / 100000).
      { apply Z.div_le_lower_bound; [lia|].
        pose proof (Z.log2_nonneg (Z.pos (Z.to_pos (Z.pos m)))).
        rewrite (Z2Pos.id den) by exact Hden.
        unfold den. rewrite Z.log2_pow2 by lia. lia. }
      change (Z.of_nat 4) with 4 in H2. lia. }
    pose proof (shortest_from_exp 16 s m e (Z.pos m) den k10 1) as H.
    destruct (shortest_from 16 s m e (Z.pos m) den k10 1) as [c x].
    cbn [snd] in H.
    pose proof (strip_zeros_exp 17 c x). change (Z.of_nat 16) with 16 in H. lia.
Qed.

Lemma valid_exponent (s : bool) (m : positive) (e : Z) :
  valid_binary b64.prec b64.emax (S754_finite s m e) = true -> -1074 <= e.
Proof.
  cbn [valid_binary]. unfold bounded, canonical_mantissa, fexp, emin.
  intros H. apply andb_prop in H. destruct H as [H _].
  apply Z.eqb_eq in H. unfold b64.prec, b64.emax in H. lia.
Qed.

Lemma Decimal_moderate (f : binary64) : moderate (Decimal f).
Proof.
  destruct f as [s|s| |s m e]; cbn [Decimal moderate]; try lia; try exact I.
  destruct (valid_binary _ _ _) eqn:V; [|exact I].
  apply valid_exponent in V.
  pose proof (shortest_exp s m e V) as H.
  destruct (shortest s m e) as [c x]. cbn [snd] in H.
  destruct (_ || _); cbn [moderate]; lia.
Qed.

(** [float] of a decimal with a zero coefficient is a zero. *)
Lemma float_zero_coefficient (b : decimal) :
  dec.eq_zero b = true -> b64.is_zero (float b) = true.
Proof. destruct b as [s [|c] e|s|]; try discriminate. reflexivity. Qed.

(** [0 + b] is zero only when the (moderate) decimal [b] is, and so is
    [b + 0]: the sum of a zero balance and another is zero only when the
    other is zero too. *)
Lemma add_zero_l_zero (s t : bool) (c : positive) (f : Z) (r : decimal) :
  -400 <= f ->
  dec.add (DFin s 0 (-1)) (DFin t (Npos c) f) = Ok r ->
  exists c' e', r = DFin t (Npos c') e' /\ -400 <= e'.
Proof.
  intros Hf. cbn [dec.add]. cbv zeta.
  set (exp := Z.max (Z.min (-1) f) (f - dec.prec - 1)).
  assert (Hexp : -400 <= exp <= f) by (unfold exp, dec.prec; lia).
  assert (Hc : 0 < Z.of_N (Npos c) * 10 ^ (f - exp)).
  { apply Z.mul_pos_pos; [lia|]. apply Z.pow_pos_nonneg; lia. }
  destruct (Z.of_N (Npos c) * 10 ^ (f - exp)) as [|c1|c1]; try lia.
  intros H. apply fix_nonzero in H; [|unfold dec.Etiny, dec.Emin, dec.prec; lia].
  destruct H as (c' & e' & -> & He). exists c', e'. split; [reflexivity|lia].
Qed.

Lemma add_zero_r_zero (s t : bool) (c : positive) (f g : Z) (r : decimal) :
  -400 <= f -> -400 <= g -> g <= 0 ->
  dec.add (DFin t (Npos c) f) (DFin s 0 g) = Ok r ->
  exists c' e', r = DFin t (Npos c') e' /\ -400 <= e'.
Proof.
  intros Hf Hg Hg0. cbn [dec.add]. cbv zeta.
  set (exp := Z.max (Z.min f g) (f - dec.prec - 1)).
  assert (Hexp : -400 <= exp <= f) by (unfold exp, dec.prec; lia).
  assert (Hc : 0 < Z.of_N (Npos c) * 10 ^ (f - exp)).
  { apply Z.mul_pos_pos; [lia|]. apply Z.pow_pos_nonneg; lia. }
  destruct (Z.of_N (Npos c) * 10 ^ (f - exp)) as [|c1|c1]; try lia.
  intros H. apply fix_nonzero in H; [|unfold dec.Etiny, dec.Emin, dec.prec; lia].
  destruct H as (c' & e' & -> & He). exists c', e'. split; [reflexivity|lia].
Qed.

Lemma sum_with_zero_l (s : bool) (b r : decimal) :
  moderate b -> sum [DFin s 0 (-1); b] = Ok r -> dec.eq_zero r = true ->
  dec.eq_zero b = true.
Proof.
  intros Hb. cbn [sum fold_left].
  replace (dec.add (DFin s 0 (-1)) dec.zero) with (Ok (DFin false 0 (-1)))
    by (now destruct s).
  destruct b as [t [|c] f|t|]; try reflexivity.
  - intros H Hz. apply add_zero_l_zero in H; [|exact Hb].
    destruct H as (c' & e' & -> & _). discriminate Hz.
  - cbn. intros H. injection H as <-. discriminate.
  - cbn. intros H. injection H as <-. discriminate.
Qed.

Lemma sum_with_zero_r (s : bool) (b r : decimal) :
  moderate b -> sum [b; DFin s 0 (-1)] = Ok r -> dec.eq_zero r = true ->
  dec.eq_zero b = true.
Proof.
  intros Hb. cbn [sum fold_left].
  destruct b as [t [|c] f|t|]; try reflexivity.
  - destruct (dec.add (DFin t (N.pos c) f) dec.zero) as [r1|e1] eqn:E1;
      [|discriminate].
    apply add_zero_r_zero in E1; [|exact Hb|lia|lia].
    destruct E1 as (c1 & e1 & -> & He1).
    intros H Hz. apply add_zero_r_zero in H; [|exact He1|lia|lia].
    destruct H as (c' & e' & -> & _). discriminate Hz.
  - cbn. intros H. injection H as <-. discriminate.
  - cbn. intros H. injection H as <-. discriminate.
Qed.

(** ** The curve residual and its partial derivatives *)

(** The residual [4A(x+y) + D - (4AD + D^3/(4xy))] of the spec and its two
    partial derivatives [4A - D^3/(4x^2 y)] and [4A - D^3/(4xy^2)], every
    operation rounded to a double, in the order in which the source writes
    them. *)
Definition residual (x y D A : binary64) : binary64 :=
  b64.sub (b64.add (b64.mul (b64.mul lit_4 A) (b64.add x y)) D)
          (b64.add (b64.mul (b64.mul lit_4 A) D)
                   (b64.div (b64.power D 3) (b64.mul (b64.mul lit_4 x) y))).

Definition dF_dx (x y D A : binary64) : binary64 :=
  b64.sub (b64.mul lit_4 A)
          (b64.div (b64.power D 3)
                   (b64.mul (b64.mul lit_4 (b64.power x 2)) y)).

Definition dF_dy (x y D A : binary64) : binary64 :=
  b64.sub (b64.mul lit_4 A)
          (b64.div (b64.power D 3)
                   (b64.mul (b64.mul lit_4 x) (b64.power y 2))).

(** [v ** k] overflows: Python raises [OverflowError]. *)
Definition overflows (v : binary64) (k : positive) : bool :=
  b64.is_finite v && negb (b64.is_finite (b64.power v k)).

(** The object once [update_spot_price] has stored the price [p]. *)
Definition priced (s : pool) (p : binary64) : pool :=
  match balances s with
  | [x; y] =>
      mkPool (balances s) (amp s) (n s) (swap_history s)
             (price_history s ++ [(float x, float y, p)]) (invariant s) p
  | _ => s
  end.

Lemma invariant_function_np (s : pool) (x y : decimal) (D : binary64) :
  _invariant_function (Np D) [x; y] s
  = (Ok (Np (residual (float x) (float y) D (float (amp s)))), s).
Proof. reflexivity. Qed.

Lemma invariant_function_py (s : pool) (x y : decimal) (D : binary64) :
  _invariant_function (Py D) [x; y] s =
  (if overflows D 3 then Raise OverflowError
   else if b64.is_zero (b64.mul (b64.mul lit_4 (float x)) (float y))
        then Raise ZeroDivisionError
        else Ok (Py (residual (float x) (float y) D (float (amp s)))), s).
Proof.
  unfold _invariant_function. cbn [List.length Nat.eqb negb].
  unfold bind, lift, gets, ret. rewrite getitem_pair_0, getitem_pair_1.
  unfold pow, overflows.
  destruct (b64.is_finite D && negb (b64.is_finite (b64.power D 3)));
    [reflexivity|].
  unfold truediv. cbn [is_np val fmul mark orb].
  destruct (b64.is_zero _); reflexivity.
Qed.

Lemma update_spot_price_run (s : pool) (x y : decimal) :
  balances s = [x; y] ->
  let fx := float x in
  let fy := float y in
  let d := float (invariant s) in
  let A := float (amp s) in
  update_spot_price s =
  if overflows d 3 || overflows fx 2 then (Raise OverflowError, s)
  else if b64.is_zero (b64.mul (b64.mul lit_4 (b64.power fx 2)) fy)
  then (Raise ZeroDivisionError, s)
  else if overflows fy 2 then (Raise OverflowError, s)
  else if b64.is_zero (b64.mul (b64.mul lit_4 fx) (b64.power fy 2))
          || b64.is_zero (dF_dx fx fy d A)
  then (Raise ZeroDivisionError, s)
  else (Ok tt, priced s (b64.div (dF_dy fx fy d A) (dF_dx fx fy d A))).
Proof.
  intros Hb. cbv zeta. unfold update_spot_price, priced.
  unfold bind, lift, gets, ret. rewrite Hb, getitem_pair_0, getitem_pair_1.
  unfold pow, overflows.
  destruct (b64.is_finite (float (invariant s))
            && negb (b64.is_finite (b64.power (float (invariant s)) 3)));
    [reflexivity|].
  destruct (b64.is_finite (float x)
            && negb (b64.is_finite (b64.power (float x) 2)));
    [reflexivity|].
  cbn [orb]. unfold truediv at 1. cbn [is_np val fmul mark orb].
  destruct (b64.is_zero (b64.mul (b64.mul lit_4 (b64.power (float x) 2)) (float y)));
    [reflexivity|].
  destruct (b64.is_finite (float y)
            && negb (b64.is_finite (b64.power (float y) 2)));
    [reflexivity|].
  unfold truediv at 1. cbn [is_np val fmul mark orb].
  destruct (b64.is_zero (b64.mul (b64.mul lit_4 (float x)) (b64.power (float y) 2)));
    [reflexivity|].
  cbn [orb]. unfold truediv. cbn [is_np val fsub fmul mark orb].
  fold (dF_dx (float x) (float y) (float (invariant s)) (float (amp s))).
  fold (dF_dy (float x) (float y) (float (invariant s)) (float (amp s))).
  destruct (b64.is_zero (dF_dx _ _ _ _)); [reflexivity|].
  unfold set_spot_price, set_price_history, modify.
  cbn [balances amp n swap_history price_history invariant spot_price val].
  rewrite Hb. reflexivity.
Qed.


(** ** Symmetry of the residual *)

Lemma add_comm (a b : binary64) : b64.add a b = b64.add b a.
Proof.
  destruct a as [[]|[]| |sa ma ea], b as [[]|[]| |sb mb eb]; try reflexivity.
  unfold b64.add. cbn [SFadd]. cbv zeta.
  rewrite (Z.min_comm eb ea). f_equal. apply Z.add_comm.
Qed.

(** C10 (amended): the residual is the same for the two orders of the
    balances whenever the product [4 * x * y], which is computed as
    [(4 * x) * y], is the same double in both orders. *)
Theorem curve_residual_symmetric (s : pool) (x y : decimal) (D : number) :
  b64.mul (b64.mul lit_4 (float x)) (float y)
  = b64.mul (b64.mul lit_4 (float y)) (float x) ->
  _invariant_function D [x; y] s = _invariant_function D [y; x] s.
Proof.
  intros H. unfold _invariant_function. cbn [List.length Nat.eqb negb].
  unfold bind, lift, gets, ret. rewrite !getitem_pair_0, !getitem_pair_1.
  destruct (pow D 3) as [d3|e]; [|reflexivity].
  unfold fmul, fadd. cbn [is_np val orb mark].
  rewrite H, (add_comm (float x) (float y)). reflexivity.
Qed.

(** ** The spot price at equal balances *)

Lemma div_self (s : bool) (m : positive) (e : Z) :
  b64.div (S754_finite s m e) (S754_finite s m e) = lit_1.
Proof.
  unfold b64.div. cbn [SFdiv]. unfold SFdiv_core_binary. cbv zeta.
  replace (Zdigits2 (Z.pos m) + e - (Zdigits2 (Z.pos m) + e)) with 0 by lia.
  replace (e - e) with 0 by lia.
  change (Z.min (fexp b64.prec b64.emax 0) 0) with (-53).
  change (0 - -53) with 53.
  rewrite Z.shiftl_mul_pow2 by lia.
  assert (Hq : Z.div_eucl (Z.pos m * 2 ^ 53) (Z.pos m) = (2 ^ 53, 0)).
  { generalize (Z.div_mul (2 ^ 53) (Z.pos m) ltac:(lia))
               (Z.mod_mul (2 ^ 53) (Z.pos m) ltac:(lia)).
    rewrite (Z.mul_comm (2 ^ 53)). unfold Z.div, Z.modulo.
    destruct (Z.div_eucl _ _) as [q r]. now intros -> ->. }
  rewrite Hq.
  rewrite xorb_nilpotent.
  replace (new_location (Z.pos m) 0) with loc_Exact
    by (unfold new_location; destruct (Z.even _); reflexivity).
  vm_compute. reflexivity.
Qed.

(** C8 (amended): at equal balances both derivatives are computed from the
    same numbers.  When the two denominators [4 x^2 y] and [4 x y^2] are
    the same double and the update returns, the stored price is the
    quotient of the derivative [w] by itself: exactly [1.0] when [w] is
    finite, and nan when it is not. *)
Theorem spot_price_at_equal_balances (s s' : pool) (x y : decimal) :
  balances s = [x; y] ->
  float x = float y ->
  b64.mul (b64.mul lit_4 (b64.power (float x) 2)) (float x)
  = b64.mul (b64.mul lit_4 (float x)) (b64.power (float x) 2) ->
  update_spot_price s = (Ok tt, s') ->
  let w := dF_dx (float x) (float x) (float (invariant s)) (float (amp s)) in
  spot_price s' = b64.div w w /\
  (b64.is_finite w = true -> spot_price s' = lit_1) /\
  (b64.is_finite w = false -> spot_price s' = S754_nan).
Proof.
  intros Hb Hxy Hden. rewrite (update_spot_price_run s x y Hb). cbv zeta.
  rewrite <- Hxy.
  assert (Hw : dF_dy (float x) (float x) (float (invariant s)) (float (amp s))
               = dF_dx (float x) (float x) (float (invariant s)) (float (amp s))).
  { unfold dF_dy, dF_dx. now rewrite Hden. }
  rewrite Hw.
  set (w := dF_dx (float x) (float x) (float (invariant s)) (float (amp s))).
  destruct (_ || _); [discriminate|].
  destruct (b64.is_zero _); [discriminate|].
  destruct (overflows _ _); [discriminate|].
  destruct (b64.is_zero (b64.mul _ _)); [discriminate|]. cbn [orb].
  destruct (b64.is_zero w) eqn:Ez; [discriminate|].
  intros H. injection H as <-. unfold priced. rewrite Hb. cbn [spot_price].
  split; [reflexivity|]. split.
  - destruct w as [sw|sw| |sw mw ew]; try discriminate. intros _. apply div_self.
  - destruct w as [sw|sw| |sw mw ew]; try discriminate; reflexivity.
Qed.

(** ** The invariant solver *)












(** The cap is what stops a run that does not converge: with no iteration
    left the loop raises. *)
Lemma secant_cap_reached func tol itr funcalls p0 q0 p1 q1 s :
  optimize.secant func tol 0 itr funcalls p0 q0 p1 q1 s
  = (Raise (RuntimeError (FailedToConverge itr (val p1))), s).
Proof. reflexivity. Qed.

(** ** Construction *)

(** The object as [__init__] has it when it reaches the check of [n]. *)
Definition initial_object (bs : list binary64) (A : Z) : pool :=
  mkPool (map Decimal bs) (dec.of_int A) (List.length bs) [] []
         dec.zero b64.zero.

Lemma init_run (bs : list binary64) (A : Z) :
  __init__ bs A blank =
  if negb (List.length bs =? 2)%nat
  then (Raise (ValueError "This simulator only supports 2 tokens for now"),
        initial_object bs A)
  else (d <- _compute_invariant ;; set_invariant d ;;; update_spot_price)
         (initial_object bs A).
Proof.
  unfold __init__, initial_object. unfold bind at 1 2 3 4 5 6. cbn.
  destruct (negb (List.length bs =? 2)%nat); reflexivity.
Qed.

Lemma mul_zero_l_not_zero (s : bool) (b : binary64) :
  b64.is_zero (b64.mul (S754_zero s) b) = false ->
  forall s', b64.mul (S754_zero s') b = S754_nan.
Proof. destruct b; cbn; intros H s'; try discriminate; reflexivity. Qed.

Lemma mul_zero_r_not_zero (a : binary64) (s : bool) :
  b64.is_zero (b64.mul a (S754_zero s)) = false ->
  forall s', b64.mul a (S754_zero s') = S754_nan.
Proof. destruct a; cbn; intros H s'; try discriminate; reflexivity. Qed.

Lemma residual_nan (x y D A : binary64) :
  b64.mul (b64.mul lit_4 x) y = S754_nan -> residual x y D A = S754_nan.
Proof. intros H. unfold residual. rewrite H. now nan_absorbs. Qed.

(** With a product [4xy] that is nan the invariant cannot be computed,
    unless the balances sum to zero. *)
Lemma compute_invariant_nan_product (s : pool) (x y sum_x : decimal) :
  balances s = [x; y] ->
  b64.mul (b64.mul lit_4 (float x)) (float y) = S754_nan ->
  sum [x; y] = Ok sum_x -> dec.eq_zero sum_x = false ->
  raises _compute_invariant s.
Proof.
  intros Hb Hnan Hsum Hnz.
  unfold _compute_invariant.
  eapply raises_bind_r; [reflexivity|]. rewrite Hb.
  eapply raises_bind_r; [unfold lift; rewrite Hsum; reflexivity|].
  rewrite Hnz. apply raises_bind_l. unfold optimize.newton.
  apply raises_bind_l, newton_full_nan_objective.
  intros p. unfold invariant_objective, bind, gets.
  destruct p as [v|v].
  - rewrite Hb, invariant_function_py.
    destruct (overflows v 3); [exact I|].
    rewrite Hnan. cbn [b64.is_zero val]. split; [|reflexivity].
    now apply residual_nan.
  - rewrite Hb, invariant_function_np. cbn [val]. split; [|reflexivity].
    now apply residual_nan.
Qed.

Lemma compute_invariant_sum (s s' : pool) (d : decimal) :
  _compute_invariant s = (Ok d, s') ->
  exists sum_x, sum (balances s) = Ok sum_x /\
                (dec.eq_zero sum_x = false -> ~ raises _compute_invariant s).
Proof.
  intros H. unfold _compute_invariant, bind, gets, lift in H.
  destruct (sum (balances s)) as [sum_x|e] eqn:E; [|discriminate].
  exists sum_x. split; [reflexivity|].
  intros _ (e & s1 & Hr).
  unfold _compute_invariant, bind, gets, lift in Hr. rewrite E in Hr.
  rewrite Hr in H. discriminate.
Qed.

(** A pool cannot be constructed on a product [4xy] that is nan when one
    balance is a zero: the sum of the balances is then not zero, and the
    root finder sees only nan. *)
Lemma no_invariant_zero_x (s s' : pool) (sx : bool) (y : binary64) (d : decimal) :
  balances s = [Decimal (S754_zero sx); Decimal y] ->
  b64.mul (b64.mul lit_4 (S754_zero sx)) (float (Decimal y)) = S754_nan ->
  _compute_invariant s <> (Ok d, s').
Proof.
  intros Hb Hnan Hc.
  destruct (compute_invariant_sum s s' d Hc) as (sum_x & Hsum & Hnr).
  rewrite Hb in Hsum.
  destruct (dec.eq_zero sum_x) eqn:Ez.
  - pose proof (sum_with_zero_l sx (Decimal y) sum_x (Decimal_moderate y) Hsum Ez)
      as Hy.
    apply float_zero_coefficient in Hy.
    destruct (float (Decimal y)); try discriminate Hy. discriminate Hnan.
  - apply (Hnr eq_refl).
    exact (compute_invariant_nan_product s _ _ sum_x Hb Hnan Hsum Ez).
Qed.

Lemma no_invariant_zero_y (s s' : pool) (x : binary64) (sy : bool) (d : decimal) :
  balances s = [Decimal x; Decimal (S754_zero sy)] ->
  b64.mul (b64.mul lit_4 (float (Decimal x))) (S754_zero sy) = S754_nan ->
  _compute_invariant s <> (Ok d, s').
Proof.
  intros Hb Hnan Hc.
  destruct (compute_invariant_sum s s' d Hc) as (sum_x & Hsum & Hnr).
  rewrite Hb in Hsum.
  destruct (dec.eq_zero sum_x) eqn:Ez.
  - pose proof (sum_with_zero_r sy (Decimal x) sum_x (Decimal_moderate x) Hsum Ez)
      as Hx.
    apply float_zero_coefficient in Hx.
    destruct (float (Decimal x)); try discriminate Hx. discriminate Hnan.
  - apply (Hnr eq_refl).
    exact (compute_invariant_nan_product s _ _ sum_x Hb Hnan Hsum Ez).
Qed.

(** C5 (amended): construction checks the number of balances, not their
    sign.  A pool is constructed only from exactly two balances, neither of
    them a zero (with a zero balance the price computation divides by zero,
    or the root finder fails on nan), and it stores them as read from their
    shortest numerals; negative balances are not rejected. *)
Theorem constructed_pool_balances (bs : list binary64) (A : Z) (p : pool) :
  StableSwapSimulator bs A = Ok p ->
  exists x y, bs = [x; y] /\ balances p = [Decimal x; Decimal y] /\
              b64.is_zero x = false /\ b64.is_zero y = false.
Proof.
  unfold StableSwapSimulator. rewrite init_run.
  destruct bs as [|x [|y [|z bs]]]; cbn [List.length Nat.eqb negb];
    try discriminate.
  set (s0 := initial_object [x; y] A).
  unfold bind at 1.
  destruct (_compute_invariant s0) as [[d|e] s1] eqn:Hc; [|discriminate].
  assert (Hs1 : s1 = s0).
  { pose proof (read_only_compute_invariant s0) as R.
    change (snd (_compute_invariant s0) = s0) in R. now rewrite Hc in R. }
  subst s1. unfold bind, set_invariant, modify.
  match goal with |- context [update_spot_price ?s] => set (s2 := s) end.
  assert (Hb2 : balances s2 = [Decimal x; Decimal y]) by reflexivity.
  destruct (update_spot_price s2) as [[[]|e] s3] eqn:Hu; [|discriminate].
  intros H. injection H as <-.
  exists x, y. split; [reflexivity|]. split.
  { pose proof (balances_preserved_by_update_spot_price s2) as P.
    rewrite Hu in P. exact P. }
  rewrite (update_spot_price_run s2 _ _ Hb2) in Hu. cbv zeta in Hu.
  destruct (_ || _); [discriminate|].
  destruct (b64.is_zero (b64.mul (b64.mul lit_4 (b64.power _ 2)) _)) eqn:Ex;
    [discriminate|].
  destruct (overflows _ _); [discriminate|].
  destruct (b64.is_zero (b64.mul (b64.mul lit_4 _) (b64.power _ 2))) eqn:Ey;
    [discriminate|].
  clear Hu. split.
  - destruct x as [sx|sx| |sx mx ex]; try reflexivity. exfalso.
    cbn [Decimal float b64.of_decimal] in Ex.
    replace (b64.mul lit_4 (b64.power (S754_zero sx) 2)) with (S754_zero false) in Ex
      by (now destruct sx).
    apply (no_invariant_zero_x s0 s0 sx y d); [reflexivity| |exact Hc].
    replace (b64.mul lit_4 (S754_zero sx)) with (S754_zero sx) by (now destruct sx).
    now apply (mul_zero_l_not_zero false).
  - destruct y as [sy|sy| |sy my ey]; try reflexivity. exfalso.
    cbn [Decimal float b64.of_decimal] in Ey.
    replace (b64.power (S754_zero sy) 2) with (S754_zero false) in Ey
      by (now destruct sy).
    apply (no_invariant_zero_y s0 s0 x sy d); [reflexivity| |exact Hc].
    now apply (mul_zero_r_not_zero _ false).
Qed.

(** ** Swaps are committed unchecked *)

Lemma quote_dy_run (s : pool) (x y dx : decimal) :
  balances s = [x; y] ->
  get_dy_given_dx dx s =
  match dec.add x dx with
  | Raise e => (Raise e, s)
  | Ok x_new =>
      match fst (solve_for_balance x_new 0 (invariant s) s) with
      | Ok y_new => (dec.sub y y_new, s)
      | Raise e => (Raise e, s)
      end
  end.
Proof.
  intros Hb. unfold get_dy_given_dx, bind, gets, lift.
  rewrite Hb, getitem_pair_0, getitem_pair_1.
  destruct (dec.add x dx) as [x_new|e]; [|reflexivity].
  rewrite (read_only_run _ s (read_only_solve_for_balance x_new 0 (invariant s))).
  destruct (fst _) as [y_new|e]; reflexivity.
Qed.

Lemma quote_dx_run (s : pool) (x y dy : decimal) :
  balances s = [x; y] ->
  get_dx_given_dy dy s =
  match dec.add y dy with
  | Raise e => (Raise e, s)
  | Ok y_new =>
      match fst (solve_for_balance y_new 1 (invariant s) s) with
      | Ok x_new => (dec.sub x x_new, s)
      | Raise e => (Raise e, s)
      end
  end.
Proof.
  intros Hb. unfold get_dx_given_dy, bind, gets, lift.
  rewrite Hb, getitem_pair_0, getitem_pair_1.
  destruct (dec.add y dy) as [y_new|e]; [|reflexivity].
  rewrite (read_only_run _ s (read_only_solve_for_balance y_new 1 (invariant s))).
  destruct (fst _) as [x_new|e]; reflexivity.
Qed.

(** C2 (amended): a swap makes no liquidity check.  When the quoted output
    is at least the balance of the output token, the input balance is
    still updated, and so is the output balance unless the decimal
    subtraction itself raises; the updates stay whatever happens
    afterwards, and the output-side balance ends zero or negative. *)
Theorem swap_without_liquidity_check (s : pool) (x y dy : decimal)
        (dx : binary64) :
  balances s = [x; y] ->
  fst (get_dy_given_dx (Decimal dx) s) = Ok dy ->
  dec.leb y dy = true ->
  exists x', dec.add x (Decimal dx) = Ok x' /\
    match dec.sub y dy with
    | Ok y' => balances (snd (swap_x_for_y dx s)) = [x'; y'] /\
               dec.positive y' = false
    | Raise e => swap_x_for_y dx s = (Raise e, with_balances s [x'; y])
    end.
Proof.
  intros Hb Hq Hle.
  rewrite (swap_x_for_y_run s x y dx Hb), Hq.
  rewrite (quote_dy_run s x y (Decimal dx) Hb) in Hq.
  destruct (dec.add x (Decimal dx)) as [x'|e]; [|discriminate Hq].
  exists x'. split; [reflexivity|].
  destruct (dec.sub y dy) as [y'|e] eqn:Es; [|reflexivity].
  split.
  - apply balances_preserved_by_settle.
  - exact (sub_not_positive y dy y' Hle Es).
Qed.

(** ** The balance solver *)

(** The list [invariant_error] builds for a candidate balance. *)
Definition trial_balances (known_balance : decimal) (balance_index : Z)
           (balance : number) : list decimal :=
  if balance_index =? 0
  then [known_balance; Decimal (val balance)]
  else [Decimal (val balance); known_balance].

(** What [solve_for_balance] makes of the outcome of the root finder. *)
Definition decimal_of_root (z : result number * pool) : result decimal * pool :=
  match z with
  | (Ok r, s') => (Ok (Decimal (val r)), s')
  | (Raise e, s') => (Raise e, s')
  end.

Lemma invariant_error_run (s : pool) (known target : decimal) (b : number)
      (idx : Z) :
  idx = 0 \/ idx = 1 ->
  invariant_error known idx target b s =
  (Ok match fst (_invariant_function (Py (float target))
                                     (trial_balances known idx b) s) with
      | Ok v => v
      | Raise _ => penalty
      end, s).
Proof.
  intros [-> | ->]; unfold invariant_error, trial_balances, bind, lift, try_except;
    cbn [Z.eqb Z.sub Z.add Z.opp Z.pos_sub].
  - rewrite setitem_pair_0, setitem_pair_1.
    rewrite (read_only_run _ s (read_only_invariant_function _ _)).
    destruct (fst _); reflexivity.
  - rewrite setitem_pair_1, setitem_pair_0.
    rewrite (read_only_run _ s (read_only_invariant_function _ _)).
    destruct (fst _); reflexivity.
Qed.

(** C3 (amended): for index 0 or 1 the objective of the balance solver
    never raises: its value is the curve residual at the trial balances
    when the curve function returns, and the penalty 1e10 when it raises;
    and [solve_for_balance] returns whatever root the root finder returns
    from the warm start, read back as a decimal with no check of its sign,
    and leaves the pool as it was. *)
Theorem solve_for_balance_unchecked (s : pool) (x y known target : decimal)
        (idx : Z) :
  balances s = [x; y] ->
  idx = 0 \/ idx = 1 ->
  (forall b,
      invariant_error known idx target b s =
      (Ok match fst (_invariant_function (Py (float target))
                                         (trial_balances known idx b) s) with
          | Ok v => v
          | Raise _ => penalty
          end, s)) /\
  solve_for_balance known idx target s =
  decimal_of_root
    (optimize.newton (invariant_error known idx target)
                     (Py (float (if idx =? 0 then y else x)))
                     tol_1e_10 100 s) /\
  snd (solve_for_balance known idx target s) = s.
Proof.
  intros Hb Hidx. split; [|split].
  - intros b. now apply invariant_error_run.
  - unfold solve_for_balance, decimal_of_root.
    unfold bind at 1 2 3. unfold gets, lift, ret.
    rewrite Hb.
    destruct Hidx as [-> | ->]; cbn [Z.eqb Z.sub Z.add Z.opp Z.pos_sub].
    + rewrite getitem_pair_1. reflexivity.
    + rewrite getitem_pair_0. reflexivity.
  - apply (read_only_solve_for_balance known idx target s).
Qed.

(** C4 (amended): the quote computes [x_new = x + dx], asks the balance
    solver for [y_new] at the cached invariant with the known balance at
    index 0, and returns [y - y_new] (a decimal difference, rounded to the
    context) unchecked.  In particular a solver answer [y_new >= y] does
    not make the quote fail: it returns an amount that is zero or
    negative. *)
Theorem quote_dy_unchecked (s : pool) (x y dx : decimal) :
  balances s = [x; y] ->
  get_dy_given_dx dx s =
  match dec.add x dx with
  | Raise e => (Raise e, s)
  | Ok x_new =>
      match fst (solve_for_balance x_new 0 (invariant s) s) with
      | Ok y_new => (dec.sub y y_new, s)
      | Raise e => (Raise e, s)
      end
  end /\
  forall x_new y_new dy,
    dec.add x dx = Ok x_new ->
    fst (solve_for_balance x_new 0 (invariant s) s) = Ok y_new ->
    dec.leb y y_new = true ->
    dec.sub y y_new = Ok dy ->
    get_dy_given_dx dx s = (Ok dy, s) /\ dec.positive dy = false.
Proof.
  intros Hb. split; [now apply quote_dy_run|].
  intros x_new y_new dy Ha Hs Hle Hd.
  rewrite (quote_dy_run s x y dx Hb), Ha, Hs, Hd.
  split; [reflexivity|]. exact (sub_not_positive y y_new dy Hle Hd).
Qed.


(** * Further properties of the simulator *)

(** ** The root finder only depends on the results of its objective *)

Lemma secant_ext (func func' : number -> M number) (tol : binary64)
      (s s' : pool) :
  (forall p, read_only (func p)) -> (forall p, read_only (func' p)) ->
  (forall p, fst (func p s) = fst (func' p s')) ->
  forall remaining itr funcalls p0 q0 p1 q1,
    fst (optimize.secant func tol remaining itr funcalls p0 q0 p1 q1 s)
    = fst (optimize.secant func' tol remaining itr funcalls p0 q0 p1 q1 s').
Proof.
  intros R R' H. induction remaining as [|k IH]; intros; cbn [optimize.secant].
  - reflexivity.
  - destruct (b64.eqb (val q1) (val q0)).
    + destruct (negb (b64.eqb (val p1) (val p0))); [reflexivity|].
      unfold bind, lift, ret. destruct (truediv _ _); reflexivity.
    + unfold bind at 1 3.
      assert (Hsp : forall qa qb pa pb,
                 optimize.secant_point qa qb pa pb s'
                 = (fst (optimize.secant_point qa qb pa pb s), s')
                 /\ optimize.secant_point qa qb pa pb s
                    = (fst (optimize.secant_point qa qb pa pb s), s)).
      { intros. unfold optimize.secant_point, bind, lift.
        destruct (truediv (- qa) qb); [|split; reflexivity].
        destruct (truediv qa qb); [|split; reflexivity].
        split; reflexivity. }
      destruct (b64.ltb _ _);
        (match goal with
         | |- context [optimize.secant_point ?a ?b ?c ?d s] =>
             destruct (Hsp a b c d) as [E' E]; rewrite E, E';
             destruct (fst (optimize.secant_point a b c d s)) as [p|e];
             [|reflexivity]
         end;
         destruct (optimize.isclose _ _ _ _); [reflexivity|];
         unfold bind;
         rewrite (read_only_run _ s (R p)), (read_only_run _ s' (R' p)), (H p);
         destruct (fst (func' p s')) as [q|e]; [apply IH|reflexivity]).
Qed.

Lemma newton_ext (func func' : number -> M number) (x0 : number)
      (tol : binary64) (maxiter : nat) (s s' : pool) :
  (forall p, read_only (func p)) -> (forall p, read_only (func' p)) ->
  (forall p, fst (func p s) = fst (func' p s')) ->
  fst (optimize.newton func x0 tol maxiter s)
  = fst (optimize.newton func' x0 tol maxiter s').
Proof.
  intros R R' H.
  assert (F : fst (optimize.newton_full func x0 tol maxiter s)
              = fst (optimize.newton_full func' x0 tol maxiter s')).
  { unfold optimize.newton_full.
    destruct (b64.leb tol b64.zero); [reflexivity|].
    destruct (maxiter <? 1)%nat; [reflexivity|].
    cbv zeta. unfold bind.
    match goal with |- context [func ?p s] =>
      rewrite (read_only_run _ s (R p)), (read_only_run _ s' (R' p)), (H p);
      destruct (fst (func' p s')) as [q0|e] end; [|reflexivity].
    match goal with |- context [func ?p s] =>
      rewrite (read_only_run _ s (R p)), (read_only_run _ s' (R' p)), (H p);
      destruct (fst (func' p s')) as [q1|e] end; [|reflexivity].
    destruct (b64.ltb _ _); now apply secant_ext. }
  unfold optimize.newton, bind.
  rewrite (read_only_run _ s (preserves_newton_full _ func x0 tol maxiter R)).
  rewrite (read_only_run _ s' (preserves_newton_full _ func' x0 tol maxiter R')).
  rewrite F.
  destruct (fst (optimize.newton_full func' x0 tol maxiter s')); reflexivity.
Qed.

(** The curve only reads the amplification, the invariant solver only the
    balances and the amplification. *)
Lemma invariant_function_ext (d : number) (bal : list decimal) (s s' : pool) :
  amp s = amp s' ->
  fst (_invariant_function d bal s) = fst (_invariant_function d bal s').
Proof.
  intros Ha. unfold _invariant_function.
  destruct (negb (List.length bal =? 2)%nat); [reflexivity|].
  unfold bind, lift, gets, ret. rewrite Ha.
  destruct (getitem bal 0); [|reflexivity].
  destruct (getitem bal 1); [|reflexivity].
  destruct (pow d 3); [|reflexivity].
  destruct (truediv _ _); reflexivity.
Qed.

Lemma compute_invariant_ext (s s' : pool) :
  balances s = balances s' -> amp s = amp s' ->
  fst (_compute_invariant s) = fst (_compute_invariant s').
Proof.
  intros Hb Ha. unfold _compute_invariant, bind, gets, lift.
  rewrite Hb. destruct (sum (balances s')) as [sum_x|e]; [|reflexivity].
  destruct (dec.eq_zero sum_x); [reflexivity|].
  assert (R : forall p, read_only (invariant_objective p))
    by (intros p; apply read_only_invariant_objective).
  rewrite (read_only_run _ s (preserves_newton _ _ _ _ _ R)).
  rewrite (read_only_run _ s' (preserves_newton _ _ _ _ _ R)).
  rewrite (newton_ext invariant_objective invariant_objective _ _ _ s s' R R).
  - destruct (fst (optimize.newton _ _ _ _ s')); reflexivity.
  - intros p. unfold invariant_objective, bind, gets. rewrite Hb.
    apply invariant_function_ext, Ha.
Qed.

(** ** What a swap leaves behind *)

Lemma update_spot_price_cases (s : pool) (x y : decimal) :
  balances s = [x; y] ->
  (exists e, update_spot_price s = (Raise e, s)) \/
  (exists p, update_spot_price s = (Ok tt, priced s p)).
Proof.
  intros Hb. rewrite (update_spot_price_run s x y Hb). cbv zeta.
  destruct (_ || _); [left; eauto|].
  destruct (b64.is_zero _); [left; eauto|].
  destruct (overflows _ _); [left; eauto|].
  destruct (_ || _); [left; eauto|].
  right. eauto.
Qed.

(** The complete outcome of [settle] when it returns. *)
Lemma settle_success label a o num den (s1 s' : pool) (x1 y1 : decimal) r :
  balances s1 = [x1; y1] ->
  settle label a o num den s1 = (Ok r, s') ->
  r = float o /\ (exists q, dec.div num den = Ok q) /\
  _compute_invariant s1 = (Ok (invariant s'), s1) /\
  s' = mkPool [x1; y1] (amp s1) (n s1)
              (swap_history s1 ++ [(label, a, float o)])
              (price_history s1 ++ [(float x1, float y1, spot_price s')])
              (invariant s') (spot_price s').
Proof.
  intros Hb. unfold settle. unfold bind at 1.
  rewrite (read_only_run _ s1 read_only_compute_invariant).
  destruct (fst (_compute_invariant s1)) as [d|e]; [|discriminate].
  destruct s1 as [bal am k sh ph inv sp]. cbn in Hb. subst bal.
  unfold bind at 1 2 3 4. unfold gets at 1. unfold lift at 1 2.
  unfold set_invariant, modify.
  cbn [balances amp n swap_history price_history invariant spot_price].
  destruct (dec.sub d inv) as [diff|e]; [|discriminate].
  destruct (dec.abs diff) as [adiff|e]; [|discriminate].
  unfold bind at 1.
  destruct (update_spot_price_cases (mkPool [x1; y1] am k sh ph d sp) x1 y1 eq_refl)
    as [(e & ->) | (p & ->)]; [discriminate|].
  unfold priced, bind, gets, set_swap_history, modify, lift, ret.
  cbn [balances amp n swap_history price_history invariant spot_price].
  destruct (dec.div num den) as [q|e]; [|discriminate].
  intros H. injection H as <- <-.
  cbn [balances amp n swap_history price_history invariant spot_price].
  repeat split. now exists q.
Qed.

(** X1: a swap of X for Y that returns has appended exactly one record to
    each history (the swap with its amounts in and out, and the new balances
    with the new price), has replaced the two balances by the decimal sum
    x + dx and the decimal difference y - dy, where dy is the quote, has
    returned dy as a double, and has left the amplification and the token
    count as they were. *)
Theorem swap_x_for_y_success (s s' : pool) (x y : decimal) (dx r : binary64) :
  balances s = [x; y] ->
  swap_x_for_y dx s = (Ok r, s') ->
  exists dy x' y',
    fst (get_dy_given_dx (Decimal dx) s) = Ok dy /\ r = float dy /\
    dec.add x (Decimal dx) = Ok x' /\ dec.sub y dy = Ok y' /\
    balances s' = [x'; y'] /\
    swap_history s' = swap_history s ++ [("X->Y"%string, dx, r)] /\
    price_history s' = price_history s ++ [(float x', float y', spot_price s')] /\
    amp s' = amp s /\ n s' = n s.
Proof.
  intros Hb. rewrite (swap_x_for_y_run s x y dx Hb).
  destruct (fst (get_dy_given_dx (Decimal dx) s)) as [dy|e]; [|discriminate].
  destruct (dec.add x (Decimal dx)) as [x'|e]; [|discriminate].
  destruct (dec.sub y dy) as [y'|e] eqn:Es; [|discriminate].
  intros H. exists dy, x', y'.
  apply (settle_success _ _ _ _ _ _ _ x' y') in H; [|reflexivity].
  destruct H as (-> & _ & _ & ->). cbn. repeat split. exact Es.
Qed.

(** X2: a swap of Y for X that returns has appended exactly one record to
    each history, has replaced the two balances by the decimal difference
    x - dx, where dx is the quote, and the decimal sum y + dy, has returned
    dx as a double, and has left the amplification and the token count as
    they were. *)
Theorem swap_y_for_x_success (s s' : pool) (x y : decimal) (dy r : binary64) :
  balances s = [x; y] ->
  swap_y_for_x dy s = (Ok r, s') ->
  exists dx x' y',
    fst (get_dx_given_dy (Decimal dy) s) = Ok dx /\ r = float dx /\
    dec.sub x dx = Ok x' /\ dec.add y (Decimal dy) = Ok y' /\
    balances s' = [x'; y'] /\
    swap_history s' = swap_history s ++ [("Y->X"%string, dy, r)] /\
    price_history s' = price_history s ++ [(float x', float y', spot_price s')] /\
    amp s' = amp s /\ n s' = n s.
Proof.
  intros Hb. rewrite (swap_y_for_x_run s x y dy Hb).
  destruct (fst (get_dx_given_dy (Decimal dy) s)) as [dx|e]; [|discriminate].
  destruct (dec.add y (Decimal dy)) as [y'|e]; [|discriminate].
  destruct (dec.sub x dx) as [x'|e] eqn:Es; [|discriminate].
  intros H. exists dx, x', y'.
  apply (settle_success _ _ _ _ _ _ _ x' y') in H; [|reflexivity].
  destruct H as (-> & _ & _ & ->). cbn. repeat split. exact Es.
Qed.

(** ** The cached invariant *)

(** X3: the invariant cached by a constructed pool is the one its balances
    give: recomputing it on the pool returns the cached value. *)
Theorem constructed_invariant_is_current (bs : list binary64) (A : Z) (p : pool) :
  StableSwapSimulator bs A = Ok p ->
  _compute_invariant p = (Ok (invariant p), p).
Proof.
  unfold StableSwapSimulator. rewrite init_run.
  destruct bs as [|x [|y [|z bs]]]; cbn [List.length Nat.eqb negb];
    try discriminate.
  unfold bind at 1.
  rewrite (read_only_run _ _ read_only_compute_invariant).
  destruct (fst (_compute_invariant (initial_object [x; y] A))) as [d|e] eqn:Hd;
    [|discriminate].
  unfold bind, set_invariant, modify.
  match goal with |- context [update_spot_price ?s0] => set (s1 := s0) end.
  destruct (update_spot_price_cases s1 (Decimal x) (Decimal y) eq_refl)
    as [(e & ->) | (q & ->)]; [discriminate|].
  intros H. injection H as <-.
  rewrite (read_only_run _ _ read_only_compute_invariant).
  rewrite (compute_invariant_ext _ (initial_object [x; y] A)); try reflexivity.
  now rewrite Hd.
Qed.

(** X4: after a swap that returns, in either direction, the cached
    invariant is the one the new balances give: recomputing it on the pool
    returns the cached value. *)
Theorem swapped_invariant_is_current (s s' : pool) (x y : decimal)
        (amount r : binary64) :
  balances s = [x; y] ->
  swap_x_for_y amount s = (Ok r, s') \/ swap_y_for_x amount s = (Ok r, s') ->
  _compute_invariant s' = (Ok (invariant s'), s').
Proof.
  intros Hb H.
  assert (K : exists label a o num den x1 y1 s1,
             balances s1 = [x1; y1] /\ settle label a o num den s1 = (Ok r, s')).
  { destruct H as [H|H].
    - rewrite (swap_x_for_y_run s x y amount Hb) in H.
      destruct (fst (get_dy_given_dx (Decimal amount) s)) as [dy|e];
        [|discriminate].
      destruct (dec.add x (Decimal amount)) as [x'|e]; [|discriminate].
      destruct (dec.sub y dy) as [y'|e]; [|discriminate].
      repeat eexists; [|exact H]. reflexivity.
    - rewrite (swap_y_for_x_run s x y amount Hb) in H.
      destruct (fst (get_dx_given_dy (Decimal amount) s)) as [dx|e];
        [|discriminate].
      destruct (dec.add y (Decimal amount)) as [y'|e]; [|discriminate].
      destruct (dec.sub x dx) as [x'|e]; [|discriminate].
      repeat eexists; [|exact H]. reflexivity. }
  destruct K as (label & a & o & num & den & x1 & y1 & s1 & Hb1 & Hs).
  apply (settle_success _ _ _ _ _ _ _ x1 y1 _ Hb1) in Hs.
  destruct Hs as (_ & _ & Hc & Hs').
  rewrite (read_only_run _ s' read_only_compute_invariant).
  rewrite (compute_invariant_ext s' s1).
  - now rewrite Hc.
  - rewrite Hs'. cbn. now rewrite Hb1.
  - rewrite Hs'. reflexivity.
Qed.

(** ** Failures of the balance solver and of construction *)

Lemma norm_index_outside (len : nat) (i : Z) :
  i < - Z.of_nat len \/ Z.of_nat len <= i -> norm_index len i = None.
Proof.
  intros H. unfold norm_index. cbv zeta.
  destruct (Z.ltb_spec i 0).
  - destruct (Z.leb_spec 0 (Z.of_nat len + i)); [lia | reflexivity].
  - destruct (Z.leb_spec 0 i); [|reflexivity].
    destruct (Z.ltb_spec i (Z.of_nat len)); [lia | reflexivity].
Qed.

Lemma getitem_raises {A} (l : list A) (i : Z) (e : exn) :
  getitem l i = Raise e -> e = IndexError.
Proof.
  unfold getitem. destruct (norm_index _ _); [destruct (nth_error _ _)|];
    intros H; inversion H; reflexivity.
Qed.

(** The root finder evaluates its objective at the initial guess first, so an
    objective that raises there makes the call raise the same exception. *)
Lemma newton_first_evaluation_raises (func : number -> M number) (x0 : number)
      (e : exn) (s : pool) :
  func (Np (b64.mul (val x0) lit_1)) s = (Raise e, s) ->
  optimize.newton func x0 tol_1e_10 100 s = (Raise e, s).
Proof.
  intros H. unfold optimize.newton, optimize.newton_full.
  change (b64.leb tol_1e_10 b64.zero) with false.
  change (100 <? 1)%nat with false.
  cbv iota zeta. unfold bind. now rewrite H.
Qed.

(** X7: on a pool of two balances a balance index other than 0 and 1 makes
    [solve_for_balance] raise IndexError: either the read of the other
    balance is out of range, or the list assignment in the objective is, and
    that assignment is outside the [try] that turns curve errors into the
    penalty value.  The pool is unchanged. *)
Theorem solve_for_balance_bad_index (s : pool) (x y known target : decimal)
        (idx : Z) :
  balances s = [x; y] -> idx <> 0 -> idx <> 1 ->
  solve_for_balance known idx target s = (Raise IndexError, s).
Proof.
  intros Hb H0 H1. unfold solve_for_balance.
  unfold bind at 1. unfold gets. rewrite Hb.
  unfold bind at 1. unfold lift.
  destruct (getitem [x; y] (1 - idx)) as [ob|e] eqn:E.
  - assert (Hidx : 2 <= idx).
    { destruct (Z_lt_le_dec idx 2) as [Hlt|]; [|assumption].
      unfold getitem in E. rewrite norm_index_outside in E; [discriminate|].
      cbn [List.length]. lia. }
    unfold bind.
    rewrite newton_first_evaluation_raises with (e := IndexError); [reflexivity|].
    unfold invariant_error, bind, lift, setitem.
    rewrite norm_index_outside; [reflexivity|]. cbn [List.length]. lia.
  - apply getitem_raises in E. now subst e.
Qed.

(** X8: construction from a number of balances other than two raises the
    ValueError of [__init__]. *)
Theorem construction_wrong_count (bs : list binary64) (A : Z) :
  List.length bs <> 2%nat ->
  StableSwapSimulator bs A
  = Raise (ValueError "This simulator only supports 2 tokens for now").
Proof.
  intros H. unfold StableSwapSimulator. rewrite init_run.
  destruct (Nat.eqb_spec (List.length bs) 2); [contradiction|reflexivity].
Qed.

(** ** An invariant of the object *)

(** A pool as the constructor and the swaps leave it: two balances, and one
    price point more than there are recorded swaps.  [plot_swap_history]
    relies on the second part when it annotates swap [i] at price point
    [i + 1]. *)
Definition well_formed (s : pool) : Prop :=
  (exists x y, balances s = [x; y]) /\
  List.length (price_history s) = S (List.length (swap_history s)).

(** Whether it returns or raises, [settle] either leaves both histories as
    they were or has appended one record to each. *)
Lemma settle_histories label a o num den (s1 s' : pool) (x1 y1 : decimal) r :
  balances s1 = [x1; y1] ->
  settle label a o num den s1 = (r, s') ->
  (swap_history s' = swap_history s1 /\ price_history s' = price_history s1) \/
  (exists sw pt, swap_history s' = swap_history s1 ++ [sw] /\
                 price_history s' = price_history s1 ++ [pt]).
Proof.
  intros Hb. unfold settle. unfold bind at 1.
  rewrite (read_only_run _ s1 read_only_compute_invariant).
  destruct (fst (_compute_invariant s1)) as [d|e];
    [|intros H; injection H as _ <-; left; split; reflexivity].
  destruct s1 as [bal am k sh ph inv sp]. cbn in Hb. subst bal.
  unfold bind at 1 2 3 4. unfold gets at 1. unfold lift at 1 2.
  unfold set_invariant, modify.
  cbn [balances amp n swap_history price_history invariant spot_price].
  destruct (dec.sub d inv) as [diff|e];
    [|intros H; injection H as _ <-; left; split; reflexivity].
  destruct (dec.abs diff) as [adiff|e];
    [|intros H; injection H as _ <-; left; split; reflexivity].
  unfold bind at 1.
  destruct (update_spot_price_cases (mkPool [x1; y1] am k sh ph d sp) x1 y1 eq_refl)
    as [(e & ->) | (p & ->)];
    [intros H; injection H as _ <-; left; split; reflexivity|].
  unfold priced, bind, gets, set_swap_history, modify, lift, ret.
  cbn [balances amp n swap_history price_history invariant spot_price].
  destruct (dec.div num den) as [q|e]; intros H; injection H as _ <-;
    right; cbn [swap_history price_history]; eauto.
Qed.

Lemma settle_keeps_well_formed label a o num den (s1 : pool) :
  well_formed s1 -> well_formed (snd (settle label a o num den s1)).
Proof.
  intros [(x1 & y1 & Hb) Hlen]. split.
  - exists x1, y1. rewrite <- Hb. apply balances_preserved_by_settle.
  - destruct (settle label a o num den s1) as [r s'] eqn:E. cbn [snd].
    destruct (settle_histories label a o num den s1 s' x1 y1 r Hb E)
      as [[-> ->] | (sw & pt & -> & ->)].
    + exact Hlen.
    + rewrite !length_app, Hlen. cbn. lia.
Qed.

(** X12: every constructed pool is well formed: it has two balances, and
    its price history has one entry more than its swap history. *)
Theorem constructed_pool_well_formed (bs : list binary64) (A : Z) (p : pool) :
  StableSwapSimulator bs A = Ok p -> well_formed p.
Proof.
  unfold StableSwapSimulator. rewrite init_run.
  destruct bs as [|x [|y [|z bs]]]; cbn [List.length Nat.eqb negb];
    try discriminate.
  unfold bind at 1.
  rewrite (read_only_run _ _ read_only_compute_invariant).
  destruct (fst _) as [d|e]; [|discriminate].
  unfold bind, set_invariant, modify.
  match goal with |- context [update_spot_price ?s0] => set (s1 := s0) end.
  destruct (update_spot_price_cases s1 (Decimal x) (Decimal y) eq_refl)
    as [(e & ->) | (q & ->)]; [discriminate|].
  intros H. injection H as <-. split; [|reflexivity].
  now exists (Decimal x), (Decimal y).
Qed.

(** X13: a swap in either direction leaves a well-formed pool well formed,
    whether it returns or raises: no failure of a swap separates the two
    histories, and none changes the number of balances. *)
Theorem swap_keeps_well_formed (s : pool) (amount : binary64) :
  well_formed s ->
  well_formed (snd (swap_x_for_y amount s)) /\
  well_formed (snd (swap_y_for_x amount s)).
Proof.
  intros H. pose proof H as [(x & y & Hb) Hlen]. split.
  - rewrite (swap_x_for_y_run s x y amount Hb).
    destruct (fst (get_dy_given_dx (Decimal amount) s)) as [dy|e]; [|exact H].
    destruct (dec.add x (Decimal amount)) as [x'|e]; [|exact H].
    destruct (dec.sub y dy) as [y'|e].
    + apply settle_keeps_well_formed. split; [|exact Hlen]. now exists x', y'.
    + split; [|exact Hlen]. now exists x', y.
  - rewrite (swap_y_for_x_run s x y amount Hb).
    destruct (fst (get_dx_given_dy (Decimal amount) s)) as [dx|e]; [|exact H].
    destruct (dec.add y (Decimal amount)) as [y'|e]; [|exact H].
    destruct (dec.sub x dx) as [x'|e].
    + apply settle_keeps_well_formed. split; [|exact Hlen]. now exists x', y'.
    + split; [|exact Hlen]. now exists x, y'.
Qed.

(** ** Properties of the rolling TWAP *)

(** X20: the rolling TWAP has as many entries as the time axis it is plotted
    against, and entry [k], the TWAP of the prices [k .. k+window_size-1],
    is plotted at the index of the last price of its window. *)
Theorem rolling_twap_time_axis (mean : list binary64 -> binary64)
        (window_size : nat) (prices : list binary64) :
  List.length (twap.rolling_arithmetic_twap mean window_size prices)
  = List.length (twap.time window_size prices) /\
  forall k,
    (k < List.length (twap.rolling_arithmetic_twap mean window_size prices))%nat ->
    nth k (twap.rolling_arithmetic_twap mean window_size prices) b64.nan
    = twap.arithmetic_twap mean (twap.window prices k window_size) /\
    nth k (twap.time window_size prices) 0
    = Z.of_nat k + Z.of_nat window_size - 1.
Proof.
  unfold twap.rolling_arithmetic_twap, twap.time. cbv zeta.
  rewrite !length_map, !length_seq. split; [lia|].
  intros k Hk. split.
  - rewrite (nth_indep _ b64.nan
               (twap.arithmetic_twap mean (twap.window prices 0 window_size)))
      by (rewrite length_map, length_seq; lia).
    rewrite (map_nth (fun i => twap.arithmetic_twap mean
                                 (twap.window prices i window_size))).
    rewrite seq_nth by lia. reflexivity.
  - rewrite (nth_indep _ 0 (Z.of_nat window_size - 1 + Z.of_nat 0))
      by (rewrite length_map, length_seq; lia).
    rewrite (map_nth (fun k => Z.of_nat window_size - 1 + Z.of_nat k)).
    rewrite seq_nth by lia. lia.
Qed.

(** ** Swaps that cannot return *)

Ltac bind_returns H :=
  let a := fresh "a" in
  let s1 := fresh "s" in
  let Ha := fresh "Hstep" in
  apply bind_returns in H; destruct H as (a & s1 & Ha & H).

(** An infinity or a nan. *)
Definition nonfinite (a : decimal) : bool :=
  match a with
  | DFin _ _ _ => false
  | _ => true
  end.

Lemma add_nonfinite_l (a b r : decimal) :
  nonfinite a = true -> dec.add a b = Ok r -> nonfinite r = true.
Proof.
  destruct a as [s c e|s|]; [discriminate| |]; intros _.
  - destruct b as [t d f|t|]; cbn.
    + intros H. injection H as <-. reflexivity.
    + destruct (Bool.eqb s t); [|discriminate].
      intros H. injection H as <-. reflexivity.
    + intros H. injection H as <-. reflexivity.
  - cbn. intros H. injection H as <-. reflexivity.
Qed.

Lemma add_nonfinite_r (a b r : decimal) :
  nonfinite b = true -> dec.add a b = Ok r -> nonfinite r = true.
Proof.
  destruct b as [t d f|t|]; [discriminate| |]; intros _.
  - destruct a as [s c e|s|]; cbn.
    + intros H. injection H as <-. reflexivity.
    + destruct (Bool.eqb s t); [|discriminate].
      intros H. injection H as <-. reflexivity.
    + intros H. injection H as <-. reflexivity.
  - destruct a; cbn; intros H; injection H as <-; reflexivity.
Qed.

Lemma sub_nonfinite_r (a b r : decimal) :
  nonfinite b = true -> dec.sub a b = Ok r -> nonfinite r = true.
Proof.
  intros Hb. unfold dec.sub. apply add_nonfinite_r. now destruct b.
Qed.

(** A sum with a term that is not finite is not finite, unless it raises. *)
Definition sum_nonfinite (r : result decimal) : Prop :=
  match r with
  | Ok a => nonfinite a = true
  | Raise _ => True
  end.

Definition sum_step (acc : result decimal) (b : decimal) : result decimal :=
  match acc with
  | Ok a => dec.add a b
  | Raise e => Raise e
  end.

Lemma fold_sum_nonfinite_acc (l : list decimal) (acc : result decimal) :
  sum_nonfinite acc -> sum_nonfinite (fold_left sum_step l acc).
Proof.
  revert acc. induction l as [|c l IH]; intros acc H; cbn [fold_left].
  - exact H.
  - apply IH. destruct acc as [a|e]; [|exact I]. cbn in *.
    destruct (dec.add a c) as [r|e] eqn:E; [|exact I].
    now apply (add_nonfinite_l a c).
Qed.

Lemma fold_sum_nonfinite_in (l : list decimal) (acc : result decimal)
      (b : decimal) :
  In b l -> nonfinite b = true -> sum_nonfinite (fold_left sum_step l acc).
Proof.
  revert acc. induction l as [|c l IH]; intros acc Hin Hb; [destruct Hin|].
  cbn [fold_left]. destruct Hin as [->|Hin].
  - apply fold_sum_nonfinite_acc. destruct acc as [a|e]; [|exact I]. cbn.
    destruct (dec.add a b) as [r|e] eqn:E; [|exact I].
    now apply (add_nonfinite_r a b).
  - now apply IH.
Qed.

Lemma sum_of_nonfinite (l : list decimal) (b : decimal) :
  In b l -> nonfinite b = true -> sum_nonfinite (sum l).
Proof.
  intros Hin Hb. destruct l as [|c l]; [destruct Hin|].
  unfold sum. change (fun acc b0 => match acc with
                                    | Ok a => dec.add a b0
                                    | Raise e => Raise e
                                    end) with sum_step.
  destruct Hin as [->|Hin].
  - apply fold_sum_nonfinite_acc. cbn.
    destruct (dec.add b dec.zero) as [r|e] eqn:E; [|exact I].
    now apply (add_nonfinite_l b dec.zero).
  - now apply (fold_sum_nonfinite_in l _ b).
Qed.

Lemma getitem_In {A} (l : list A) (i : Z) (a : A) :
  getitem l i = Ok a -> In a l.
Proof.
  unfold getitem. destruct (norm_index _ _) as [j|]; [|discriminate].
  destruct (nth_error l j) as [b|] eqn:E; [|discriminate].
  intros H. injection H as <-. now apply nth_error_In in E.
Qed.

Lemma length_replace_nth {A} (l : list A) (j : nat) (a : A) :
  List.length (replace_nth l j a) = List.length l.
Proof.
  revert j. induction l as [|h t IH]; intros j; [reflexivity|].
  destruct j; cbn; [reflexivity|]. now rewrite IH.
Qed.

Lemma nth_error_replace_nth {A} (l : list A) (j : nat) (a : A) :
  (j < List.length l)%nat -> nth_error (replace_nth l j a) j = Some a.
Proof.
  revert j. induction l as [|h t IH]; intros j Hj; cbn in Hj; [lia|].
  destruct j; cbn; [reflexivity|]. apply IH. lia.
Qed.

Lemma getitem_setitem {A} (l l' : list A) (i : Z) (a : A) :
  setitem l i a = Ok l' -> getitem l' i = Ok a.
Proof.
  unfold setitem, getitem.
  destruct (norm_index (List.length l) i) as [j|] eqn:E; [|discriminate].
  intros H. injection H as <-. rewrite length_replace_nth, E.
  rewrite nth_error_replace_nth; [reflexivity|].
  unfold norm_index in E. cbv zeta in E.
  destruct (_ && _) eqn:B; [|discriminate]. injection E as <-.
  apply andb_prop in B. destruct B as [B1 B2].
  apply Z.leb_le in B1. apply Z.ltb_lt in B2. lia.
Qed.

(** From an infinite guess both starting points of the root finder are that
    infinity; with a residual that is nan there the iteration never
    returns. *)
Lemma newton_full_infinite_guess (func : number -> M number) (x0 : number)
      (tol : binary64) (maxiter : nat) (s : pool) (sg : bool) :
  val x0 = S754_infinity sg ->
  match func (Np (S754_infinity sg)) s with
  | (Ok q, s') => val q = S754_nan /\ s' = s
  | (Raise _, _) => True
  end ->
  raises (optimize.newton_full func x0 tol maxiter) s.
Proof.
  intros Hx Hf. unfold optimize.newton_full, raises.
  destruct (b64.leb tol b64.zero); [unfold raise; eauto|].
  destruct (maxiter <? 1)%nat eqn:Hm; [unfold raise; eauto|].
  cbv zeta. rewrite Hx.
  assert (E0 : Np (b64.mul (S754_infinity sg) lit_1) = Np (S754_infinity sg))
    by now destruct sg.
  rewrite E0.
  assert (E1 : (Np (S754_infinity sg) * (Py lit_1 + Py lit_1e_4))%num
               = Np (S754_infinity sg)) by now destruct sg.
  rewrite E1.
  assert (E2 : (Np (S754_infinity sg)
                + (if b64.leb b64.zero (val (Np (S754_infinity sg)))
                   then Py lit_1e_4 else - Py lit_1e_4))%num
               = Np (S754_infinity sg)) by now destruct sg.
  rewrite E2.
  unfold bind.
  destruct (func (Np (S754_infinity sg)) s) as [[q0|e] s1] eqn:Ef; [|eauto].
  destruct Hf as [H0 ->]. rewrite Ef.
  rewrite H0. cbn [b64.abs SFabs b64.ltb SFltb SFcompare].
  destruct maxiter as [|k]; [discriminate|].
  cbn [optimize.secant]. rewrite H0. cbn [b64.eqb SFeqb SFcompare].
  cbn [b64.abs SFabs b64.ltb SFltb SFcompare].
  unfold bind.
  match goal with |- context [optimize.secant_point ?a ?b ?c ?d s] =>
    pose proof (secant_point_nan a b c d s) as Hp;
    destruct (optimize.secant_point a b c d s) as [[p|e] s1]; [|eauto] end.
  destruct Hp as [-> ->]; [reflexivity | now left |].
  cbn [val]. rewrite isclose_nan.
  destruct (func (Np S754_nan) s) as [[q|e] s2]; [|eauto].
  now apply secant_nan.
Qed.

Lemma mul_infinity_r (v : binary64) (t : bool) :
  b64.is_finite (b64.mul v (S754_infinity t)) = false.
Proof. destruct v as [[]|[]| |[] m e]; reflexivity. Qed.

Lemma div_infinity_nonfinite (sg : bool) (v : binary64) :
  b64.is_finite v = false -> b64.div (S754_infinity sg) v = S754_nan.
Proof. destruct v as [[]|[]| |[] m e]; try discriminate; reflexivity. Qed.

(** With a second balance that is not finite the curve is nan at an infinite
    [d]. *)
Lemma invariant_function_at_infinity (s : pool) (bal : list decimal)
      (b : decimal) (sg : bool) :
  getitem bal 1 = Ok b -> nonfinite b = true ->
  match _invariant_function (Np (S754_infinity sg)) bal s with
  | (Ok q, s') => val q = S754_nan /\ s' = s
  | (Raise _, _) => True
  end.
Proof.
  intros Hg Hb. unfold _invariant_function.
  destruct (negb (List.length bal =? 2)%nat) eqn:L; [exact I|].
  destruct bal as [|b0 [|b1 [|b2 bal]]]; try discriminate.
  rewrite getitem_pair_1 in Hg. injection Hg as ->.
  unfold bind, lift, gets, ret. rewrite getitem_pair_0, getitem_pair_1.
  cbn [pow is_np val mark]. cbn [b64.power].
  unfold truediv. cbn [is_np orb val mark].
  split; [|reflexivity].
  unfold fsub, fadd, fmul. rewrite !val_mark. cbn [val].
  rewrite (div_infinity_nonfinite _ (b64.mul (b64.mul lit_4 (float b0)) (float b))).
  - now nan_absorbs.
  - destruct b as [t c e|t|]; [discriminate| |].
    + apply mul_infinity_r.
    + cbn [float]. now nan_absorbs.
Qed.

(** With a second balance that is not finite the invariant cannot be
    computed. *)
Lemma compute_invariant_nonfinite (s : pool) (b : decimal) :
  getitem (balances s) 1 = Ok b -> nonfinite b = true ->
  raises _compute_invariant s.
Proof.
  intros Hg Hb. unfold _compute_invariant.
  eapply raises_bind_r; [reflexivity|].
  pose proof (sum_of_nonfinite (balances s) b (getitem_In _ _ _ Hg) Hb) as Hs.
  destruct (sum (balances s)) as [sum_x|e] eqn:E.
  - eapply raises_bind_r; [reflexivity|]. cbn in Hs.
    destruct sum_x as [t c f|t|]; [discriminate| |]; cbn [dec.eq_zero].
    + apply raises_bind_l. unfold optimize.newton. apply raises_bind_l.
      apply (newton_full_infinite_guess _ _ _ _ _ t); [reflexivity|].
      unfold invariant_objective, bind, gets.
      now apply (invariant_function_at_infinity s (balances s) b).
    + apply raises_bind_l. unfold optimize.newton. apply raises_bind_l.
      now apply newton_full_nan_guess.
  - apply raises_bind_l. exists e, s. reflexivity.
Qed.

(** [settle] returns only when the quotient it prints exists. *)
Lemma settle_quotient label a o num den (s1 s' : pool) (r : binary64) :
  settle label a o num den s1 = (Ok r, s') -> exists q, dec.div num den = Ok q.
Proof.
  intros H. unfold settle in H. do 9 bind_returns H.
  match goal with
  | Hd : lift (dec.div num den) _ = _ |- _ => unfold lift in Hd;
      destruct (dec.div num den) as [q|e]; [now exists q | discriminate]
  end.
Qed.

Lemma isub_balance_returns (i : Z) (v : decimal) (s s' : pool) (u : unit) :
  isub_balance i v s = (Ok u, s') ->
  exists b b', getitem (balances s) i = Ok b /\ dec.sub b v = Ok b' /\
               getitem (balances s') i = Ok b'.
Proof.
  unfold isub_balance, bind, gets, lift, set_balances, modify.
  destruct (getitem (balances s) i) as [b|e]; [|discriminate].
  destruct (dec.sub b v) as [b'|e] eqn:Hs; [|discriminate].
  destruct (setitem (balances s) i b') as [bal'|e] eqn:Hset; [|discriminate].
  intros H. injection H as _ <-. exists b, b'. cbn [balances].
  repeat split; [exact Hs|]. now apply getitem_setitem in Hset.
Qed.

(** X5: a swap of zero X for Y never returns, whatever the object: it
    raises, at the latest when the price it prints divides by the zero
    amount in.  When the quote is an infinity or a nan that division would
    not raise, but then the second balance has become an infinity or a nan
    and the invariant cannot be recomputed. *)
Theorem swap_of_zero_x_raises (s : pool) (amount : binary64) :
  b64.is_zero amount = true -> exists e, fst (swap_x_for_y amount s) = Raise e.
Proof.
  intros Hz. destruct (swap_x_for_y amount s) as [[r|e] s'] eqn:H;
    [exfalso | now exists e].
  rewrite swap_x_for_y_steps in H. do 3 bind_returns H.
  destruct (settle_quotient _ _ _ _ _ _ _ _ H) as [q Hq].
  apply settle_returns in H. destruct H as (Hc & _).
  destruct a as [t c f|t|].
  - destruct amount as [sg|sg| |sg m e]; try discriminate.
    cbn in Hq. destruct c; discriminate.
  - apply isub_balance_returns in Hstep1.
    destruct Hstep1 as (b & b' & _ & Hs & Hg).
    apply sub_nonfinite_r in Hs; [|reflexivity].
    now apply (raises_not_ok _ _ s2 (invariant s')
                 (compute_invariant_nonfinite s2 b' Hg Hs)).
  - apply isub_balance_returns in Hstep1.
    destruct Hstep1 as (b & b' & _ & Hs & Hg).
    apply sub_nonfinite_r in Hs; [|reflexivity].
    now apply (raises_not_ok _ _ s2 (invariant s')
                 (compute_invariant_nonfinite s2 b' Hg Hs)).
Qed.

(** A double that is a number: finite, and in the format. *)
Definition finite_double (f : binary64) : bool :=
  b64.is_finite f && valid_binary b64.prec b64.emax f.

Lemma Decimal_finite (f : binary64) :
  finite_double f = true -> exists sg c e, Decimal f = DFin sg c e.
Proof.
  unfold finite_double. intros H. apply andb_prop in H. destruct H as [Hf Hv].
  destruct f as [sg|sg| |sg m e]; try discriminate.
  - now exists sg, 0%N, (-1).
  - unfold Decimal. rewrite Hv. destruct (shortest sg m e) as [c x].
    cbv zeta. destruct (_ || _); eauto.
Qed.

(** X6: a swap of Y for X of a finite amount that returns has returned the
    quote as a double, and that quote is a Decimal different from zero: the
    price printed at the very end divides by it.  (The double returned can
    still be zero: a Decimal below the smallest double rounds to it.) *)
Theorem swap_y_for_x_output_nonzero (s s' : pool) (amount r : binary64) :
  finite_double amount = true ->
  swap_y_for_x amount s = (Ok r, s') ->
  exists dx, fst (get_dx_given_dy (Decimal amount) s) = Ok dx /\
             r = float dx /\ dec.eq_zero dx = false.
Proof.
  intros Hf H. rewrite swap_y_for_x_steps in H. do 3 bind_returns H.
  destruct (settle_quotient _ _ _ _ _ _ _ _ H) as [q Hq].
  apply settle_returns in H. destruct H as (_ & -> & _).
  exists a. rewrite Hstep. split; [reflexivity|]. split; [reflexivity|].
  destruct a as [t c f|t|]; try reflexivity.
  destruct c; [|reflexivity].
  destruct (Decimal_finite amount Hf) as (u & d & g & E). rewrite E in Hq.
  cbn in Hq. destruct d; discriminate.
Qed.

(** * Examples *)

(** The double nearest to [c * 10^e], as a numeral [c]e[e] of Python
    denotes it. *)
Definition double (c e : Z) : binary64 :=
  b64.of_decimal (c <? 0) (Z.abs_N c) e.

(** The pool a constructor call returns ([blank] if it raises). *)
Definition constructed (bs : list binary64) (A : Z) : pool :=
  match StableSwapSimulator bs A with
  | Ok p => p
  | Raise _ => blank
  end.

(** [StableSwapSimulator([1.0, 1.0], 1)]: D = 2.0, price 1.0 *)
Definition pool_1_1 : pool :=
  mkPool [DFin false 10 (-1); DFin false 10 (-1)] (DFin false 1 0) 2 []
         [(lit_1, lit_1, lit_1)] (DFin false 20 (-1)) lit_1.

Lemma pool_1_1_constructed :
  StableSwapSimulator [double 1 0; double 1 0] 1 = Ok pool_1_1.
Proof. vm_compute. reflexivity. Qed.

(** The amount of Y that pool quotes for 10.0 X: 10.504782281603914 *)
Definition quote_1_1 : decimal := DFin false 10504782281603914 (-15).

Lemma pool_1_1_quote :
  fst (get_dy_given_dx (Decimal (double 10 0)) pool_1_1) = Ok quote_1_1.
Proof. vm_compute. reflexivity. Qed.

(** That pool after [swap_x_for_y(10.0)]. *)
Definition pool_1_1_after : pool :=
  Eval vm_compute in snd (swap_x_for_y (double 10 0) pool_1_1).

Lemma pool_1_1_swap :
  swap_x_for_y (double 10 0) pool_1_1 = (Ok (float quote_1_1), pool_1_1_after).
Proof. vm_compute. reflexivity. Qed.

(** [StableSwapSimulator([2.0, 2e-08], 10)] *)
Definition pool_skewed : pool :=
  Eval vm_compute in constructed [double 2 0; double 2 (-8)] 10.

(** That pool after [swap_x_for_y(1e-07)]. *)
Definition pool_skewed_after : pool :=
  Eval vm_compute in snd (swap_x_for_y (double 1 (-7)) pool_skewed).

(** C1: on the pool built from balances (2.0, 2e-08) with A = 10, swapping
    1e-07 X returns an amount of Y above zero and below the Y balance, and
    both balances stay positive; the invariant recomputed on the new
    balances differs from the cached one (which is below 1) by more than
    1e-05, yet the swap returns, with the balances changed and the new
    invariant cached. *)
Theorem swap_commits_beyond_drift_tolerance :
  StableSwapSimulator [double 2 0; double 2 (-8)] 10 = Ok pool_skewed /\
  exists dy drift,
    swap_x_for_y (double 1 (-7)) pool_skewed = (Ok dy, pool_skewed_after) /\
    b64.ltb b64.zero dy = true /\ b64.ltb dy (double 2 (-8)) = true /\
    Forall (fun b => dec.positive b = true) (balances pool_skewed_after) /\
    balances pool_skewed_after <> balances pool_skewed /\
    invariant pool_skewed_after <> invariant pool_skewed /\
    match dec.sub (invariant pool_skewed_after) (invariant pool_skewed) with
    | Ok d => dec.abs d
    | Raise e => Raise e
    end = Ok drift /\
    dec.ltb (DFin false 1 (-5)) drift = true /\
    dec.ltb (invariant pool_skewed) (DFin false 1 0) = true.
Proof.
  split; [vm_compute; reflexivity|].
  eexists. eexists.
  split; [vm_compute; reflexivity|].
  split; [reflexivity|]. split; [reflexivity|].
  split; [repeat constructor|].
  split; [discriminate|]. split; [discriminate|].
  split; [vm_compute; reflexivity|].
  split; reflexivity.
Qed.


Lemma swap_without_liquidity_check_witness :
  exists x', dec.add (DFin false 10 (-1)) (Decimal (double 10 0)) = Ok x' /\
    match dec.sub (DFin false 10 (-1)) quote_1_1 with
    | Ok y' => balances (snd (swap_x_for_y (double 10 0) pool_1_1)) = [x'; y'] /\
               dec.positive y' = false
    | Raise e => swap_x_for_y (double 10 0) pool_1_1
                 = (Raise e, with_balances pool_1_1 [x'; DFin false 10 (-1)])
    end.
Proof.
  apply (swap_without_liquidity_check pool_1_1 (DFin false 10 (-1))
           (DFin false 10 (-1)) quote_1_1 (double 10 0)).
  - reflexivity.
  - exact pool_1_1_quote.
  - vm_compute. reflexivity.
Defined.

(** C2 (counterexample): the pool built from balances (1.0, 1.0) with
    A = 1 quotes more than its whole Y balance for 10.0 X, and the swap of
    10.0 X returns, leaving a negative Y balance. *)
Lemma swap_beyond_balance_mutates :
  StableSwapSimulator [double 1 0; double 1 0] 1 = Ok pool_1_1 /\
  exists dy r s',
    fst (get_dy_given_dx (Decimal (double 10 0)) pool_1_1) = Ok dy /\
    dec.leb (DFin false 10 (-1)) dy = true /\
    swap_x_for_y (double 10 0) pool_1_1 = (Ok r, s') /\
    balances s' <> balances pool_1_1 /\
    exists x' y', balances s' = [x'; y'] /\ dec.ltb y' dec.zero = true.
Proof.
  split; [apply pool_1_1_constructed|].
  exists quote_1_1. eexists. eexists.
  split; [apply pool_1_1_quote|]. split; [vm_compute; reflexivity|].
  split; [apply pool_1_1_swap|]. split; [discriminate|].
  eexists. eexists. split; reflexivity.
Qed.

Lemma solve_for_balance_unchecked_witness :
  (forall b,
      invariant_error (DFin false 110 (-1)) 0 (DFin false 20 (-1)) b pool_1_1 =
      (Ok match fst (_invariant_function (Py (float (DFin false 20 (-1))))
                       (trial_balances (DFin false 110 (-1)) 0 b) pool_1_1) with
          | Ok v => v
          | Raise _ => penalty
          end, pool_1_1)) /\
  solve_for_balance (DFin false 110 (-1)) 0 (DFin false 20 (-1)) pool_1_1 =
  decimal_of_root
    (optimize.newton (invariant_error (DFin false 110 (-1)) 0 (DFin false 20 (-1)))
                     (Py (float (if 0 =? 0 then DFin false 10 (-1)
                                 else DFin false 10 (-1))))
                     tol_1e_10 100 pool_1_1) /\
  snd (solve_for_balance (DFin false 110 (-1)) 0 (DFin false 20 (-1)) pool_1_1)
  = pool_1_1.
Proof.
  apply (solve_for_balance_unchecked pool_1_1 (DFin false 10 (-1))
           (DFin false 10 (-1)) (DFin false 110 (-1)) (DFin false 20 (-1)) 0).
  - reflexivity.
  - left. reflexivity.
Defined.

(** C3 (counterexample): on the pool built from balances (1.0, 1.0) with
    A = 1, the solver call made by the quote for 10.0 X (known balance 11.0
    at index 0, target invariant 2.0) returns a negative balance, about
    -9.50. *)
Lemma solve_for_balance_returns_negative :
  StableSwapSimulator [double 1 0; double 1 0] 1 = Ok pool_1_1 /\
  dec.add (DFin false 10 (-1)) (Decimal (double 10 0)) = Ok (DFin false 110 (-1)) /\
  exists r,
    fst (solve_for_balance (DFin false 110 (-1)) 0 (invariant pool_1_1) pool_1_1)
    = Ok r /\
    dec.ltb r dec.zero = true.
Proof.
  split; [apply pool_1_1_constructed|]. split; [vm_compute; reflexivity|].
  eexists. split; [vm_compute; reflexivity|]. reflexivity.
Qed.

Lemma quote_dy_unchecked_witness :
  get_dy_given_dx (DFin false 100 (-1)) pool_1_1 =
  match dec.add (DFin false 10 (-1)) (DFin false 100 (-1)) with
  | Raise e => (Raise e, pool_1_1)
  | Ok x_new =>
      match fst (solve_for_balance x_new 0 (invariant pool_1_1) pool_1_1) with
      | Ok y_new => (dec.sub (DFin false 10 (-1)) y_new, pool_1_1)
      | Raise e => (Raise e, pool_1_1)
      end
  end /\
  forall x_new y_new dy,
    dec.add (DFin false 10 (-1)) (DFin false 100 (-1)) = Ok x_new ->
    fst (solve_for_balance x_new 0 (invariant pool_1_1) pool_1_1) = Ok y_new ->
    dec.leb (DFin false 10 (-1)) y_new = true ->
    dec.sub (DFin false 10 (-1)) y_new = Ok dy ->
    get_dy_given_dx (DFin false 100 (-1)) pool_1_1 = (Ok dy, pool_1_1) /\
    dec.positive dy = false.
Proof.
  apply (quote_dy_unchecked pool_1_1 (DFin false 10 (-1)) (DFin false 10 (-1))
           (DFin false 100 (-1))).
  reflexivity.
Defined.

(** C4 (counterexample): the pool built from balances (1.0, 1.0) with
    A = 1 quotes, for dx = 10.0 > 0, an amount that is not below its Y
    balance: about 10.50. *)
Lemma quote_dy_exceeds_balance :
  StableSwapSimulator [double 1 0; double 1 0] 1 = Ok pool_1_1 /\
  dec.positive (Decimal (double 10 0)) = true /\
  exists dy,
    get_dy_given_dx (Decimal (double 10 0)) pool_1_1 = (Ok dy, pool_1_1) /\
    dec.ltb dy (DFin false 10 (-1)) = false.
Proof.
  split; [apply pool_1_1_constructed|]. split; [reflexivity|].
  eexists. split; [vm_compute; reflexivity|]. reflexivity.
Qed.

(** [StableSwapSimulator([-2.0, -2.0], 1)]: D = -4.0, price 1.0 *)
Definition pool_negative : pool :=
  mkPool [DFin true 20 (-1); DFin true 20 (-1)] (DFin false 1 0) 2 []
         [(double (-2) 0, double (-2) 0, lit_1)] (DFin true 40 (-1)) lit_1.

Lemma constructed_pool_balances_witness :
  exists x y, [double (-2) 0; double (-2) 0] = [x; y] /\
              balances pool_negative = [Decimal x; Decimal y] /\
              b64.is_zero x = false /\ b64.is_zero y = false.
Proof.
  apply (constructed_pool_balances [double (-2) 0; double (-2) 0] 1 pool_negative).
  vm_compute. reflexivity.
Defined.

(** C5 (counterexample): pools are constructed from two negative balances,
    and from a positive and a negative one. *)
Lemma negative_balances_accepted :
  StableSwapSimulator [double (-2) 0; double (-2) 0] 1 = Ok pool_negative /\
  StableSwapSimulator [double 1 0; double (-1) 0] 100
  = Ok (mkPool [DFin false 10 (-1); DFin true 10 (-1)] (DFin false 100 0) 2 []
               [(double 1 0, double (-1) 0, lit_1)] (DFin false 0 0) lit_1).
Proof. split; vm_compute; reflexivity. Qed.


Lemma curve_residual_symmetric_witness :
  _invariant_function (Py (double 11 0)) [DFin false 30 (-1); DFin false 70 (-1)]
                      pool_1_1
  = _invariant_function (Py (double 11 0)) [DFin false 70 (-1); DFin false 30 (-1)]
                        pool_1_1.
Proof.
  apply (curve_residual_symmetric pool_1_1 (DFin false 30 (-1)) (DFin false 70 (-1))).
  vm_compute. reflexivity.
Defined.

(** [StableSwapSimulator([1.0, 1.0], 0)]: D = 2.0, price 1.0 *)
Definition pool_unamplified : pool :=
  mkPool [DFin false 10 (-1); DFin false 10 (-1)] (DFin false 0 0) 2 []
         [(lit_1, lit_1, lit_1)] (DFin false 20 (-1)) lit_1.

(** C10 (counterexample): with A = 0 and D = 1.0 the residual at
    (1.7e308, 1e-308) is 1.0, because [4 * 1.7e308] overflows to inf, and
    at (1e-308, 1.7e308) it is about 0.853. *)
Lemma curve_residual_not_symmetric :
  StableSwapSimulator [double 1 0; double 1 0] 0 = Ok pool_unamplified /\
  exists u v,
    _invariant_function (Py (double 1 0))
      [Decimal (double 17 307); Decimal (double 1 (-308))] pool_unamplified
    = (Ok (Py u), pool_unamplified) /\
    _invariant_function (Py (double 1 0))
      [Decimal (double 1 (-308)); Decimal (double 17 307)] pool_unamplified
    = (Ok (Py v), pool_unamplified) /\
    u = lit_1 /\ b64.ltb v lit_1 = true.
Proof.
  split; [vm_compute; reflexivity|].
  eexists. eexists. split; [vm_compute; reflexivity|].
  split; [vm_compute; reflexivity|]. split; reflexivity.
Qed.

(** [StableSwapSimulator([1000.0, 1000.0], 100)]: D = 2000.0, price 1.0 *)
Definition pool_1000 : pool :=
  mkPool [DFin false 10000 (-1); DFin false 10000 (-1)] (DFin false 100 0) 2 []
         [(double 1000 0, double 1000 0, lit_1)] (DFin false 20000 (-1)) lit_1.

Lemma pool_1000_constructed :
  StableSwapSimulator [double 1000 0; double 1000 0] 100 = Ok pool_1000.
Proof. vm_compute. reflexivity. Qed.

(** That pool after one more [update_spot_price()]. *)
Definition pool_1000_repriced : pool :=
  mkPool [DFin false 10000 (-1); DFin false 10000 (-1)] (DFin false 100 0) 2 []
         [(double 1000 0, double 1000 0, lit_1);
          (double 1000 0, double 1000 0, lit_1)] (DFin false 20000 (-1)) lit_1.

Lemma spot_price_at_equal_balances_witness :
  let w := dF_dx (float (DFin false 10000 (-1))) (float (DFin false 10000 (-1)))
                 (float (invariant pool_1000)) (float (amp pool_1000)) in
  spot_price pool_1000_repriced = b64.div w w /\
  (b64.is_finite w = true -> spot_price pool_1000_repriced = lit_1) /\
  (b64.is_finite w = false -> spot_price pool_1000_repriced = S754_nan).
Proof.
  apply (spot_price_at_equal_balances pool_1000 pool_1000_repriced
           (DFin false 10000 (-1)) (DFin false 10000 (-1))).
  - reflexivity.
  - reflexivity.
  - vm_compute. reflexivity.
  - vm_compute. reflexivity.
Defined.

(** A pool object with balances (1e-100, 1e-100), A = 100 and the cached
    invariant 1e+100. *)
Definition pool_far : pool :=
  mkPool [DFin false 1 (-100); DFin false 1 (-100)] (DFin false 100 0) 2 [] []
         (DFin false 1 100) lit_1.

(** C8 (counterexample): at the equal positive balances x = y = 1e-100
    with D = 1e+100 and A = 100 the derivative is -inf, not zero, and
    [update_spot_price] returns with the price nan, which is not within
    1e-6 of 1.0. *)
Lemma spot_price_nan_at_equal_balances :
  balances pool_far = [Decimal (double 1 (-100)); Decimal (double 1 (-100))] /\
  invariant pool_far = Decimal (double 1 100) /\
  dF_dx (double 1 (-100)) (double 1 (-100)) (double 1 100) (double 100 0)
  = S754_infinity true /\
  exists s', update_spot_price pool_far = (Ok tt, s') /\
             spot_price s' = S754_nan.
Proof.
  split; [vm_compute; reflexivity|]. split; [vm_compute; reflexivity|].
  split; [vm_compute; reflexivity|].
  eexists. split; [vm_compute; reflexivity|]. reflexivity.
Qed.

(** ** Examples for the further properties *)

(** The amount of X the pool built from (1.0, 1.0) with A = 1 quotes for
    10.0 Y. *)
Definition quote_1_1_x : decimal :=
  Eval vm_compute in
    match fst (get_dx_given_dy (Decimal (double 10 0)) pool_1_1) with
    | Ok dx => dx
    | Raise _ => DNaN
    end.

(** That pool after [swap_y_for_x(10.0)]. *)
Definition pool_1_1_after_y : pool :=
  Eval vm_compute in snd (swap_y_for_x (double 10 0) pool_1_1).

Lemma pool_1_1_swap_y :
  swap_y_for_x (double 10 0) pool_1_1 = (Ok (float quote_1_1_x), pool_1_1_after_y).
Proof. vm_compute. reflexivity. Qed.

Lemma swap_x_for_y_success_witness :
  exists dy x' y',
    fst (get_dy_given_dx (Decimal (double 10 0)) pool_1_1) = Ok dy /\
    float quote_1_1 = float dy /\
    dec.add (DFin false 10 (-1)) (Decimal (double 10 0)) = Ok x' /\
    dec.sub (DFin false 10 (-1)) dy = Ok y' /\
    balances pool_1_1_after = [x'; y'] /\
    swap_history pool_1_1_after
    = swap_history pool_1_1 ++ [("X->Y"%string, double 10 0, float quote_1_1)] /\
    price_history pool_1_1_after
    = price_history pool_1_1 ++ [(float x', float y', spot_price pool_1_1_after)] /\
    amp pool_1_1_after = amp pool_1_1 /\ n pool_1_1_after = n pool_1_1.
Proof.
  apply (swap_x_for_y_success pool_1_1 pool_1_1_after (DFin false 10 (-1))
           (DFin false 10 (-1)) (double 10 0) (float quote_1_1)).
  - reflexivity.
  - exact pool_1_1_swap.
Defined.

Lemma swap_y_for_x_success_witness :
  exists dx x' y',
    fst (get_dx_given_dy (Decimal (double 10 0)) pool_1_1) = Ok dx /\
    float quote_1_1_x = float dx /\
    dec.sub (DFin false 10 (-1)) dx = Ok x' /\
    dec.add (DFin false 10 (-1)) (Decimal (double 10 0)) = Ok y' /\
    balances pool_1_1_after_y = [x'; y'] /\
    swap_history pool_1_1_after_y
    = swap_history pool_1_1 ++ [("Y->X"%string, double 10 0, float quote_1_1_x)] /\
    price_history pool_1_1_after_y
    = price_history pool_1_1 ++ [(float x', float y', spot_price pool_1_1_after_y)] /\
    amp pool_1_1_after_y = amp pool_1_1 /\ n pool_1_1_after_y = n pool_1_1.
Proof.
  apply (swap_y_for_x_success pool_1_1 pool_1_1_after_y (DFin false 10 (-1))
           (DFin false 10 (-1)) (double 10 0) (float quote_1_1_x)).
  - reflexivity.
  - exact pool_1_1_swap_y.
Defined.

Lemma constructed_invariant_is_current_witness :
  _compute_invariant pool_1_1 = (Ok (invariant pool_1_1), pool_1_1).
Proof.
  apply (constructed_invariant_is_current [double 1 0; double 1 0] 1 pool_1_1).
  vm_compute. reflexivity.
Defined.

Lemma swapped_invariant_is_current_witness :
  _compute_invariant pool_1_1_after
  = (Ok (invariant pool_1_1_after), pool_1_1_after).
Proof.
  apply (swapped_invariant_is_current pool_1_1 pool_1_1_after
           (DFin false 10 (-1)) (DFin false 10 (-1)) (double 10 0)
           (float quote_1_1)).
  - reflexivity.
  - left. vm_compute. reflexivity.
Defined.

Lemma swap_of_zero_x_raises_witness :
  exists e, fst (swap_x_for_y (S754_zero false) pool_1_1) = Raise e.
Proof. apply (swap_of_zero_x_raises pool_1_1 (S754_zero false)). reflexivity. Defined.

(** On the pool built from balances (1.0, 1.0) with A = 1 that failure
    comes after the swap has been recorded in both histories. *)
Example swap_of_zero_x_is_recorded :
  swap_x_for_y (S754_zero false) pool_1_1
  = (Raise InvalidOperation,
     mkPool [DFin false 10 (-1); DFin false 10 (-1)] (DFin false 1 0) 2
            [("X->Y"%string, S754_zero false, S754_zero false)]
            [(lit_1, lit_1, lit_1); (lit_1, lit_1, lit_1)]
            (DFin false 20 (-1)) lit_1).
Proof. vm_compute. reflexivity. Qed.

Lemma swap_y_for_x_output_nonzero_witness :
  exists dx, fst (get_dx_given_dy (Decimal (double 10 0)) pool_1_1) = Ok dx /\
             float quote_1_1_x = float dx /\ dec.eq_zero dx = false.
Proof.
  apply (swap_y_for_x_output_nonzero pool_1_1 pool_1_1_after_y (double 10 0)
           (float quote_1_1_x)).
  - vm_compute. reflexivity.
  - vm_compute. reflexivity.
Defined.

Lemma solve_for_balance_bad_index_witness :
  solve_for_balance (DFin false 110 (-1)) 2 (DFin false 20 (-1)) pool_1_1
  = (Raise IndexError, pool_1_1).
Proof.
  apply (solve_for_balance_bad_index pool_1_1 (DFin false 10 (-1))
           (DFin false 10 (-1)) (DFin false 110 (-1)) (DFin false 20 (-1)) 2).
  - reflexivity.
  - lia.
  - lia.
Defined.

Lemma construction_wrong_count_witness :
  StableSwapSimulator [double 1 0; double 1 0; double 1 0] 1
  = Raise (ValueError "This simulator only supports 2 tokens for now").
Proof.
  apply (construction_wrong_count [double 1 0; double 1 0; double 1 0] 1).
  simpl. lia.
Defined.

Lemma constructed_pool_well_formed_witness : well_formed pool_1_1.
Proof.
  apply (constructed_pool_well_formed [double 1 0; double 1 0] 1 pool_1_1).
  vm_compute. reflexivity.
Defined.

Lemma swap_keeps_well_formed_witness :
  well_formed (snd (swap_x_for_y (double 10 0) pool_1_1)) /\
  well_formed (snd (swap_y_for_x (double 10 0) pool_1_1)).
Proof.
  apply (swap_keeps_well_formed pool_1_1 (double 10 0)).
  split; [|reflexivity].
  exists (DFin false 10 (-1)), (DFin false 10 (-1)). reflexivity.
Defined.
